(** * Named counters over a transactional store

    A shallow embedding of [internal/counter.go]: the [Counter] record, the
    three methods of [CounterOperator] ([CreateCounter], [Next],
    [DeleteCounter]) and the statements they issue through [*gorm.DB].

    The operator holds no state; everything lives in the [counters] table.
    The methods are therefore state transformers over a handle [DB] that
    carries the table.  The handle is the caller's transaction: the model is
    that of one transaction running its statements in program order. *)

From Stdlib Require Import NArith List String Bool Lia.
From Stdlib Require Import PeanoNat DecimalString ListSet Permutation.
Import ListNotations.
Open Scope N_scope.

(** ** The parts of [gorm] the counter relies on *)

Module gorm.

(** [time.Time], as an abstract instant; [0] is the zero value. *)
Definition Time := N.

(** The two failures the statements of [counter.go] can report: no row
    matched a [First], or an insert or update broke a uniqueness
    constraint (primary key, or the [unique] tag on [Name]). *)
Inductive error : Type :=
| ErrRecordNotFound
| ErrDuplicatedKey.

(** [gorm.Model]: the embedded primary key, timestamps and the
    soft-delete marker ([DeletedAt] is [None] for NULL). *)
Record Model : Type := mkModel
  { ID : N;
    CreatedAt : Time;
    UpdatedAt : Time;
    DeletedAt : option Time }.

Definition Model_zero : Model :=
  {| ID := 0; CreatedAt := 0; UpdatedAt := 0; DeletedAt := None |}.

End gorm.

(** [context.Context]; none of the three methods reads it. *)
Inductive Context : Type :=
| Background
| WithCancel (parent : Context).

(** ** [type Counter struct] *)

Record Counter : Type := mkCounter
  { Model : gorm.Model;
    Name : string;      (* gorm:"not null;unique" *)
    Value : N           (* uint32, gorm:"not null" *) }.

(** [Counter{}] *)
Definition Counter_zero : Counter :=
  {| Model := gorm.Model_zero; Name := EmptyString; Value := 0 |}.

(** [type CounterOperator struct{}] *)
Inductive CounterOperator : Type := mkCounterOperator.

Definition uint32_modulus : N := 4294967296.
Definition uint32_max : N := 4294967295.

(** [v++] on a [uint32]. *)
Definition uint32_incr (v : N) : N := (v + 1) mod uint32_modulus.

Definition ID_of (c : Counter) : N := gorm.ID (Model c).

(** A row is active when its [deleted_at] column is NULL. *)
Definition is_active (c : Counter) : bool :=
  match gorm.DeletedAt (Model c) with
  | None => true
  | Some _ => false
  end.

Definition set_Value (c : Counter) (v : N) : Counter :=
  {| Model := Model c; Name := Name c; Value := v |}.

Definition set_UpdatedAt (c : Counter) (t : gorm.Time) : Counter :=
  {| Model := {| gorm.ID := gorm.ID (Model c);
                 gorm.CreatedAt := gorm.CreatedAt (Model c);
                 gorm.UpdatedAt := t;
                 gorm.DeletedAt := gorm.DeletedAt (Model c) |};
     Name := Name c; Value := Value c |}.

Definition set_DeletedAt (c : Counter) (d : option gorm.Time) : Counter :=
  {| Model := {| gorm.ID := gorm.ID (Model c);
                 gorm.CreatedAt := gorm.CreatedAt (Model c);
                 gorm.UpdatedAt := gorm.UpdatedAt (Model c);
                 gorm.DeletedAt := d |};
     Name := Name c; Value := Value c |}.

(** ** The store handle: [*gorm.DB] *)

(** The [counters] table in insertion order, and the clock the handle
    stamps rows with ([Config.NowFunc]). *)
Record DB : Type := mkDB
  { rows : list Counter;
    NowFunc : gorm.Time }.

Definition empty_DB : DB := {| rows := []; NowFunc := 0 |}.

Definition at_time (t : gorm.Time) (tx : DB) : DB :=
  {| rows := rows tx; NowFunc := t |}.

Module Store.

(** The key the DBMS hands to an inserted row that brought none: larger
    than every key in the table. *)
Definition next_ID (l : list Counter) : N :=
  N.succ (fold_right N.max 0 (map ID_of l)).

(** [ORDER BY id LIMIT 1] *)
Fixpoint first_by_ID (l : list Counter) : option Counter :=
  match l with
  | [] => None
  | r :: l' =>
      match first_by_ID l' with
      | Some r' => if ID_of r <=? ID_of r' then Some r else Some r'
      | None => Some r
      end
  end.

(** [WHERE name = ? AND deleted_at IS NULL] *)
Definition matches (name : string) (r : Counter) : bool :=
  String.eqb (Name r) name && is_active r.

(** Would writing a row with key [id] and name [name] leave two rows
    with one name? *)
Definition name_taken (id : N) (name : string) (l : list Counter) : bool :=
  existsb (fun r => negb (ID_of r =? id) && String.eqb (Name r) name) l.

(** The timestamps [Create] fills in on the struct before it issues the
    INSERT, whatever the INSERT then does: the creation and update times
    when they are zero. *)
Definition stamp_times (tx : DB) (c : Counter) : Counter :=
  let m := Model c in
  {| Model :=
       {| gorm.ID := gorm.ID m;
          gorm.CreatedAt :=
            if gorm.CreatedAt m =? 0 then NowFunc tx else gorm.CreatedAt m;
          gorm.UpdatedAt :=
            if gorm.UpdatedAt m =? 0 then NowFunc tx else gorm.UpdatedAt m;
          gorm.DeletedAt := gorm.DeletedAt m |};
     Name := Name c; Value := Value c |}.

(** The struct as [Create] fills it in before the INSERT: the creation
    and update times when they are zero, the key when it is zero. *)
Definition prepare_insert (tx : DB) (c : Counter) : Counter :=
  let m := Model c in
  {| Model :=
       {| gorm.ID := if gorm.ID m =? 0 then next_ID (rows tx) else gorm.ID m;
          gorm.CreatedAt :=
            if gorm.CreatedAt m =? 0 then NowFunc tx else gorm.CreatedAt m;
          gorm.UpdatedAt :=
            if gorm.UpdatedAt m =? 0 then NowFunc tx else gorm.UpdatedAt m;
          gorm.DeletedAt := gorm.DeletedAt m |};
     Name := Name c; Value := Value c |}.

(** [tx.Create(&c)]: INSERT one row.  The primary key and the unique
    index on [name] range over every row of the table, soft-deleted ones
    included; a clash fails the statement and leaves the table as it
    was. *)
Definition Create (tx : DB) (c : Counter) : Counter * option gorm.error * DB :=
  let row := prepare_insert tx c in
  if existsb (fun r => (ID_of r =? ID_of row) || String.eqb (Name r) (Name row))
             (rows tx)
  then (stamp_times tx c, Some gorm.ErrDuplicatedKey, tx)
  else (row, None, {| rows := rows tx ++ [row]; NowFunc := NowFunc tx |}).

(** [tx.Clauses(clause.Locking{Strength: "UPDATE"}).Where("name = ?", name).First(&dest)]:
    the active row with that name and the least key.  The locking clause
    makes other transactions wait; it does not change what this one
    reads. *)
Definition First (tx : DB) (name : string) (dest : Counter)
  : Counter * option gorm.error :=
  match first_by_ID (filter (matches name) (rows tx)) with
  | Some r => (r, None)
  | None => (dest, Some gorm.ErrRecordNotFound)
  end.

(** [UPDATE counters SET <all columns> WHERE deleted_at IS NULL AND id = ?] *)
Definition hit (c : Counter) (r : Counter) : bool :=
  (ID_of r =? ID_of c) && is_active r.

Definition update_all (c : Counter) (l : list Counter) : list Counter :=
  map (fun r => if hit c r then c else r) l.

(** [INSERT ... ON CONFLICT (id) DO UPDATE SET updated_at, deleted_at, name, value],
    the statement [Save] falls back to when its UPDATE touched no row; it
    is a [Create], so the struct gets its zero timestamps filled in. *)
Definition overwrite (c : Counter) (r : Counter) : Counter :=
  {| Model := {| gorm.ID := ID_of r;
                 gorm.CreatedAt := gorm.CreatedAt (Model r);
                 gorm.UpdatedAt := gorm.UpdatedAt (Model c);
                 gorm.DeletedAt := gorm.DeletedAt (Model c) |};
     Name := Name c; Value := Value c |}.

Definition Upsert (tx : DB) (c : Counter) : Counter * option gorm.error * DB :=
  if name_taken (ID_of c) (Name c) (rows tx)
  then (stamp_times tx c, Some gorm.ErrDuplicatedKey, tx)
  else if existsb (fun r => ID_of r =? ID_of c) (rows tx)
  then (stamp_times tx c, None,
        {| rows := map (fun r => if ID_of r =? ID_of c then overwrite c r else r)
                       (rows tx);
           NowFunc := NowFunc tx |})
  else (stamp_times tx c, None,
        {| rows := rows tx ++ [stamp_times tx c]; NowFunc := NowFunc tx |}).

(** [tx.Save(&c)]: with a zero key it is [Create]; otherwise it updates
    every column of the active row with that key and stamps
    [UpdatedAt]; when no row was touched it upserts. *)
Definition Save (tx : DB) (c : Counter) : Counter * option gorm.error * DB :=
  if ID_of c =? 0 then Create tx c
  else
    let c' := set_UpdatedAt c (NowFunc tx) in
    if existsb (hit c') (rows tx)
    then
      if name_taken (ID_of c') (Name c') (rows tx)
      then (c', Some gorm.ErrDuplicatedKey, tx)
      else (c', None,
            {| rows := update_all c' (rows tx); NowFunc := NowFunc tx |})
    else Upsert tx c'.

(** [tx.Where("name = ?", name).Delete(&Counter{})]: [Counter] embeds
    [gorm.Model], so this is a soft delete,
    [UPDATE counters SET deleted_at = now WHERE name = ? AND deleted_at IS NULL].
    Matching no row is not an error. *)
Definition Delete (tx : DB) (name : string) : option gorm.error * DB :=
  (None,
   {| rows := map (fun r => if matches name r
                            then set_DeletedAt r (Some (NowFunc tx))
                            else r)
                  (rows tx);
      NowFunc := NowFunc tx |}).

End Store.

(** ** The operator *)

(** [func (co CounterOperator) CreateCounter(ctx, tx, name) (Counter, error)] *)
Definition CreateCounter (co : CounterOperator) (ctx : Context) (tx : DB)
    (name : string) : (Counter * option gorm.error) * DB :=
  let counter := {| Model := gorm.Model_zero; Name := name; Value := 0 |} in
  match Store.Create tx counter with
  | (_, Some err, tx') => ((Counter_zero, Some err), tx')
  | (counter, None, tx') => ((counter, None), tx')
  end.

(** [func (co CounterOperator) Next(ctx, tx, name) (Counter, error)] *)
Definition Next (co : CounterOperator) (ctx : Context) (tx : DB)
    (name : string) : (Counter * option gorm.error) * DB :=
  match Store.First tx name Counter_zero with
  | (_, Some err) => ((Counter_zero, Some err), tx)
  | (counter, None) =>
      let counter := set_Value counter (uint32_incr (Value counter)) in
      match Store.Save tx counter with
      | (_, Some err, tx') => ((Counter_zero, Some err), tx')
      | (counter, None, tx') => ((counter, None), tx')
      end
  end.

(** [func (co CounterOperator) DeleteCounter(ctx, tx, name) error] *)
Definition DeleteCounter (co : CounterOperator) (ctx : Context) (tx : DB)
    (name : string) : option gorm.error * DB :=
  Store.Delete tx name.

(** ** Observations and the schema *)

(** The row carrying a name, whatever its deletion marker. *)
Definition lookup (tx : DB) (n : string) : option Counter :=
  find (fun r => String.eqb (Name r) n) (rows tx).

(** The active counter with a name: the row [Next] would read. *)
Definition active_counter (tx : DB) (n : string) : option Counter :=
  find (Store.matches n) (rows tx).

Fixpoint distinct {A : Type} (eqb : A -> A -> bool) (l : list A) : bool :=
  match l with
  | [] => true
  | x :: l' => negb (existsb (eqb x) l') && distinct eqb l'
  end.

(** What the migrated schema guarantees of every table: keys are distinct
    and non-zero, names are distinct, values fit a [uint32]. *)
Definition well_formed (tx : DB) : bool :=
  distinct N.eqb (map ID_of (rows tx))
  && forallb (fun r => negb (ID_of r =? 0)) (rows tx)
  && distinct String.eqb (map Name (rows tx))
  && forallb (fun r => Value r <? uint32_modulus) (rows tx).

Record WF (tx : DB) : Prop := mkWF
  { wf_ids : NoDup (map ID_of (rows tx));
    wf_ids_nonzero : forall r, In r (rows tx) -> ID_of r <> 0;
    wf_names : NoDup (map Name (rows tx));
    wf_values : forall r, In r (rows tx) -> Value r < uint32_modulus }.

(** ** Sequences of calls *)

Inductive call : Type :=
| CallCreate (name : string)
| CallNext (name : string)
| CallDelete (name : string).

Definition exec (co : CounterOperator) (ctx : Context) (tx : DB) (c : call)
  : (Counter * option gorm.error) * DB :=
  match c with
  | CallCreate n => CreateCounter co ctx tx n
  | CallNext n => Next co ctx tx n
  | CallDelete n =>
      let '(err, tx') := DeleteCounter co ctx tx n in ((Counter_zero, err), tx')
  end.

(** Calls issued one after the other, each at its own instant; the results
    are listed in call order. *)
Fixpoint run (co : CounterOperator) (ctx : Context)
    (tr : list (gorm.Time * call)) (tx : DB)
  : list (Counter * option gorm.error) * DB :=
  match tr with
  | [] => ([], tx)
  | (t, c) :: tr' =>
      let '(r, tx') := exec co ctx (at_time t tx) c in
      let '(rs, tx'') := run co ctx tr' tx' in
      (r :: rs, tx'')
  end.

(** [n] consecutive [Next] calls on one name, at the instants [ts]. *)
Definition nexts (name : string) (ts : list gorm.Time)
  : list (gorm.Time * call) :=
  map (fun t => (t, CallNext name)) ts.

(** How many calls of a trace were a [Next] on [name] that returned no
    error. *)
Fixpoint committed_nexts (name : string) (tr : list (gorm.Time * call))
    (rs : list (Counter * option gorm.error)) : N :=
  match tr, rs with
  | (_, CallNext n) :: tr', (_, None) :: rs' =>
      (if String.eqb n name then 1 else 0) + committed_nexts name tr' rs'
  | _ :: tr', _ :: rs' => committed_nexts name tr' rs'
  | _, _ => 0
  end.

(** ** Transactions

    The operator runs on a handle the caller owns; what its calls did is
    kept when the caller commits and discarded when the caller rolls
    back. *)

(** One transaction of the caller: the calls it issues on its handle, and
    whether it ends committed or rolled back. *)
Record transaction : Type := mkTransaction
  { calls : list (gorm.Time * call);
    commits : bool }.

(** Transactions taking effect one after the other.  A committed one
    leaves the table its calls produced, a rolled-back one the table it
    started from; the results of the calls are listed either way. *)
Fixpoint run_transactions (co : CounterOperator) (ctx : Context)
    (txs : list transaction) (db : DB)
  : list (list (Counter * option gorm.error)) * DB :=
  match txs with
  | [] => ([], db)
  | t :: txs' =>
      let '(rs, tx) := run co ctx (calls t) db in
      let db' := if commits t then tx else db in
      let '(rss, db'') := run_transactions co ctx txs' db' in
      (rs :: rss, db'')
  end.

(** The committed [Next] calls on [name]: those that returned no error in
    a transaction that was committed. *)
Fixpoint committed_Next_calls (name : string) (txs : list transaction)
    (rss : list (list (Counter * option gorm.error))) : N :=
  match txs, rss with
  | t :: txs', rs :: rss' =>
      (if commits t then committed_nexts name (calls t) rs else 0)
      + committed_Next_calls name txs' rss'
  | _, _ => 0
  end.

(** ** Derived notions and sample tables *)

(** The row [CreateCounter] inserts for a name. *)
Definition fresh_row (tx : DB) (n : string) : Counter :=
  Store.prepare_insert tx {| Model := gorm.Model_zero; Name := n; Value := 0 |}.

(** What [Next] makes of the row it read: the value incremented in
    [uint32], the update time stamped by [Save]. *)
Definition bumped (now : gorm.Time) (c : Counter) : Counter :=
  set_UpdatedAt (set_Value c (uint32_incr (Value c))) now.

(** A row predicate that only holds of rows named [b]. *)
Definition about (b : string) (p : Counter -> bool) : Prop :=
  forall r, p r = true -> Name r = b.

Definition values (rs : list (Counter * option gorm.error)) : list N :=
  map (fun r => Value (fst r)) rs.

Definition errors (rs : list (Counter * option gorm.error))
  : list (option gorm.error) :=
  map snd rs.

(** Two tables used as concrete inputs: one counter [n0] that was just
    created, and one counter [n0] that has reached the largest [uint32]. *)
Definition db_created : DB :=
  snd (CreateCounter mkCounterOperator Background (at_time 1 empty_DB) "n0").

Definition db_at_max : DB :=
  {| rows := [ {| Model := {| gorm.ID := 1; gorm.CreatedAt := 1;
                             gorm.UpdatedAt := 2; gorm.DeletedAt := None |};
                  Name := "n0"; Value := 4294967295 |} ];
     NowFunc := 3 |}.

(** A table whose only row is a soft-deleted [n0]. *)
Definition db_deleted : DB :=
  snd (DeleteCounter mkCounterOperator Background (at_time 2 db_created) "n0").

(** Two counters, [n0] at value 1 and [n1] at value 0. *)
Definition db_two : DB :=
  snd (run mkCounterOperator Background
         [(1, CallCreate "n0"); (2, CallCreate "n1"); (3, CallNext "n0")]
         empty_DB).

(** The active counter with a name, or [Counter{}] when there is none. *)
Definition current (tx : DB) (n : string) : Counter :=
  match active_counter tx n with
  | Some c => c
  | None => Counter_zero
  end.

(** A name whose row is kept but soft-deleted. *)
Definition retired (tx : DB) (n : string) : Prop :=
  lookup tx n <> None /\ active_counter tx n = None.

(** The names of the [CreateCounter] calls of a trace that returned no
    error, in call order. *)
Fixpoint created_names (tr : list (gorm.Time * call))
    (rs : list (Counter * option gorm.error)) : list string :=
  match tr, rs with
  | (_, CallCreate n) :: tr', (_, None) :: rs' => n :: created_names tr' rs'
  | _ :: tr', _ :: rs' => created_names tr' rs'
  | _, _ => []
  end.

(** The primary key and the name of a row: what identifies it. *)
Definition identity (r : Counter) : N * string := (ID_of r, Name r).

(** ** The test suite

    The tests of the package are its callers.  Each is embedded as a
    function of the handle [initFn] returns (the migrated [counters]
    table) to the way the test ends.  The handle's clock is read at every
    call: [now k] is the instant of the [k]-th call the test issues. *)

(** The [error] values that reach the tests: what the store reported, or
    the value of [errors.New]. *)
Inductive go_error : Type :=
| StoreErr (e : gorm.error)
| ErrorsNew (text : string).

(** How a test ends: it returns, [t.Fatal(err)] stops it, [t.Fatal] and
    [t.Fatalf] stop it with a message, or it waits for ever on a channel
    that holds nothing. *)
Inductive verdict : Type :=
| PASS
| FatalErr (err : go_error)
| FatalMsg (msg : string)
| Blocked.

(** [%d] *)
Definition fmt_d (n : N) : string := NilZero.string_of_uint (N.to_uint n).

(** [uint32(x)] of a non-negative [int]. *)
Definition uint32 (x : N) : N := x mod uint32_modulus.

(** [for i := lo; ...; i++ { body }], run for a given number of
    iterations; the body either stops the test or hands on the state. *)
Fixpoint for_loop {S : Type} (iterations : nat) (i : N)
    (body : N -> S -> verdict + S) (s : S) : verdict + S :=
  match iterations with
  | O => inr s
  | Datatypes.S k =>
      match body i s with
      | inl v => inl v
      | inr s' => for_loop k (i + 1) body s'
      end
  end.

(** [for i := lo; i < hi; i++ { body }] *)
Definition for_range {S : Type} (lo hi : N) (body : N -> S -> verdict + S)
    (s : S) : verdict + S :=
  for_loop (N.to_nat (hi - lo)) lo body s.

(** [TestInit] *)
Definition TestInit (now : N -> gorm.Time) (db : DB) : verdict :=
  let co := mkCounterOperator in
  let '((_, err), _) := CreateCounter co Background (at_time (now 0) db) "n0" in
  match err with
  | Some e => FatalErr (StoreErr e)
  | None => PASS
  end.

(** [TestNextWithoutCreate] *)
Definition TestNextWithoutCreate (now : N -> gorm.Time) (db : DB) : verdict :=
  let co := mkCounterOperator in
  let '((_, err), _) := Next co Background (at_time (now 0) db) "n0" in
  match err with
  | None => FatalMsg "expected error"
  | Some _ => PASS
  end.

(** The body of the loop of [TestSingleName]. *)
Definition TestSingleName_body (now : N -> gorm.Time) (co : CounterOperator)
    (i : N) (db : DB) : verdict + DB :=
  let '((c, err), db) := Next co Background (at_time (now (1 + i)) db) "n0" in
  match err with
  | Some e => inl (FatalErr (StoreErr e))
  | None =>
      if negb (Value c =? uint32 (i + 1))
      then inl (FatalMsg ("expected " ++ fmt_d (i + 1)
                          ++ ", got " ++ fmt_d (Value c)))
      else inr db
  end.

(** [TestSingleName] *)
Definition TestSingleName (now : N -> gorm.Time) (db : DB) : verdict :=
  let co := mkCounterOperator in
  let '((_, err), db) := CreateCounter co Background (at_time (now 0) db) "n0" in
  match err with
  | Some e => FatalErr (StoreErr e)
  | None =>
      match for_range 0 10 (TestSingleName_body now co) db with
      | inl v => v
      | inr _ => PASS
      end
  end.

(** The body of the loop of [TestMultipleNames]. *)
Definition TestMultipleNames_body (now : N -> gorm.Time)
    (co : CounterOperator) (i : N) (db : DB) : verdict + DB :=
  let '((x, err), db) :=
    Next co Background (at_time (now (2 + 2 * i)) db) "n0" in
  match err with
  | Some e => inl (FatalErr (StoreErr e))
  | None =>
      if negb (Value x =? uint32 (i + 1))
      then inl (FatalMsg ("expected " ++ fmt_d (i + 1)
                          ++ ", got " ++ fmt_d (Value x)))
      else
        let '((y, err), db) :=
          Next co Background (at_time (now (3 + 2 * i)) db) "n1" in
        match err with
        | Some e => inl (FatalErr (StoreErr e))
        | None =>
            if negb (Value y =? uint32 (i + 1))
            then inl (FatalMsg ("expected " ++ fmt_d (i + 1)
                                ++ ", got " ++ fmt_d (Value y)))
            else inr db
        end
  end.

(** [TestMultipleNames] *)
Definition TestMultipleNames (now : N -> gorm.Time) (db : DB) : verdict :=
  let nValues := 10 in
  let co := mkCounterOperator in
  let '((_, err), db) := CreateCounter co Background (at_time (now 0) db) "n0" in
  match err with
  | Some e => FatalErr (StoreErr e)
  | None =>
      let '((_, err), db) :=
        CreateCounter co Background (at_time (now 1) db) "n1" in
      match err with
      | Some e => FatalErr (StoreErr e)
      | None =>
          match for_range 0 nValues (TestMultipleNames_body now co) db with
          | inl v => v
          | inr _ => PASS
          end
      end
  end.

(** [TestDelete] *)
Definition TestDelete (now : N -> gorm.Time) (db : DB) : verdict :=
  let co := mkCounterOperator in
  let '((_, err), db) := CreateCounter co Background (at_time (now 0) db) "n0" in
  match err with
  | Some e => FatalErr (StoreErr e)
  | None =>
      let '(err, db) := DeleteCounter co Background (at_time (now 1) db) "n0" in
      match err with
      | Some e => FatalErr (StoreErr e)
      | None =>
          let '((_, err), _) := Next co Background (at_time (now 2) db) "n0" in
          match err with
          | None => FatalMsg "expected error"
          | Some _ => PASS
          end
      end
  end.

(** *** Tests that start goroutines

    Each goroutine of these tests is one [db.Transaction] whose first
    statement is the locking read of [Next]; the tests wait for all of
    them.  The row lock (and, for SQLite, the single connection) lets one
    such transaction at a time past that read, so the transactions take
    effect one after the other, in some order.  The embedding runs them in
    an order it is given. *)

(** [db.Transaction(fc)]: [fc] runs on the transaction's handle; when it
    returns an error its statements are rolled back, otherwise they are
    committed.  What [fc] did to the variables of the test stays. *)
Definition Transaction {S : Type} (db : DB)
    (fc : DB -> S -> option go_error * DB * S) (s : S)
  : option go_error * DB * S :=
  match fc db s with
  | (Some err, _, s') => (Some err, db, s')
  | (None, tx, s') => (None, tx, s')
  end.

(** The goroutines [g k tid], started for the [tid]s of [order], taking
    effect in that order; the first issues the [k]-th call of the test. *)
Fixpoint run_goroutines {S : Type} (g : N -> N -> DB -> S -> DB * S) (k : N)
    (order : list N) (db : DB) (s : S) : DB * S :=
  match order with
  | [] => (db, s)
  | tid :: rest =>
      let '(db, s) := g k tid db s in
      run_goroutines g (k + 1) rest db s
  end.

(** [for i := 0; i < n; i++] as the list of its indices. *)
Definition indices (n : N) : list N := map N.of_nat (seq 0 (N.to_nat n)).

(** The function [TestContention] hands to [db.Transaction]; [rs] and
    [ec] are the two channels. *)
Definition TestContention_txn (co : CounterOperator) (tx : DB)
    (vars : list N * list go_error)
  : option go_error * DB * (list N * list go_error) :=
  let '(rs, ec) := vars in
  let '((c, err), tx) := Next co Background tx "n0" in
  match err with
  | Some e => (Some (StoreErr e), tx, (rs, ec ++ [StoreErr e]))
  | None => (None, tx, (rs ++ [Value c], ec))
  end.

(** [TestContention] *)
Definition TestContention (now : N -> gorm.Time) (db : DB) : verdict :=
  let nThreads := 2 in
  let co := mkCounterOperator in
  let '((_, err), db) := CreateCounter co Background (at_time (now 0) db) "n0" in
  match err with
  | Some e => FatalErr (StoreErr e)
  | None =>
      let '(_, (rs, ec)) :=
        run_goroutines
          (fun k _ db vars =>
             let '(_, db, vars) :=
               Transaction (at_time (now k) db) (TestContention_txn co) vars in
             (db, vars))
          1 (indices nThreads) db ([], []) in
      match ec with
      | e :: _ => FatalErr e
      | [] =>
          match rs with
          | r0 :: r1 :: _ =>
              if negb (uint32 (r0 + r1) =? 3)
              then FatalMsg ("expected sum of 3, got " ++ fmt_d (uint32 (r0 + r1)))
              else PASS
          | _ => Blocked
          end
      end
  end.

(** The function [TestSingleNameConcurrent] hands to [db.Transaction];
    [values] is the map, whose keys all map to [true], and [ec] the
    channel. *)
Definition TestSingleNameConcurrent_txn (co : CounterOperator) (tx : DB)
    (vars : set N * list go_error)
  : option go_error * DB * (set N * list go_error) :=
  let '(values, ec) := vars in
  let '((c, err), tx) := Next co Background tx "n0" in
  match err with
  | Some e => (Some (StoreErr e), tx, (values, ec ++ [StoreErr e]))
  | None => (None, tx, (set_add N.eq_dec (Value c) values, ec))
  end.

(** The checks the tests make of [values] once every goroutine is done:
    it has [n] keys, and each of [1, ..., n] is one. *)
Definition check_values (n : N) (values : set N) : verdict :=
  if negb (N.of_nat (List.length values) =? n)
  then FatalMsg ("expected " ++ fmt_d n
                 ++ ", got " ++ fmt_d (N.of_nat (List.length values)))
  else
    match for_range 1 (n + 1)
            (fun i (_ : unit) =>
               if negb (set_mem N.eq_dec (uint32 i) values)
               then inl (FatalMsg ("missing " ++ fmt_d i))
               else inr tt)
            tt
    with
    | inl v => v
    | inr _ => PASS
    end.

(** [TestSingleNameConcurrent] *)
Definition TestSingleNameConcurrent (now : N -> gorm.Time) (db : DB)
  : verdict :=
  let nThreads := 10 in
  let co := mkCounterOperator in
  let '((_, err), db) := CreateCounter co Background (at_time (now 0) db) "n0" in
  match err with
  | Some e => FatalErr (StoreErr e)
  | None =>
      let '(_, (values, ec)) :=
        run_goroutines
          (fun k _ db vars =>
             let '(_, db, vars) :=
               Transaction (at_time (now k) db)
                 (TestSingleNameConcurrent_txn co) vars in
             (db, vars))
          1 (indices nThreads) db (empty_set N, []) in
      match ec with
      | e :: _ => FatalErr e
      | [] => check_values nThreads values
      end
  end.

(** The function the goroutine [tid] of [TestRollback] hands to
    [db.Transaction]. *)
Definition TestRollback_txn (co : CounterOperator) (tid : N) (tx : DB)
    (vars : set N * list go_error)
  : option go_error * DB * (set N * list go_error) :=
  let '(values, ec) := vars in
  let '((c, err), tx) := Next co Background tx "n0" in
  match err with
  | Some e => (Some (StoreErr e), tx, (values, ec ++ [StoreErr e]))
  | None =>
      if tid mod 2 =? 0
      then (Some (ErrorsNew "abort"), tx, (values, ec))
      else (None, tx, (set_add N.eq_dec (Value c) values, ec))
  end.

Definition TestRollback_goroutine (now : N -> gorm.Time)
    (co : CounterOperator) (k tid : N) (db : DB)
    (vars : set N * list go_error) : DB * (set N * list go_error) :=
  let '(_, db, vars) :=
    Transaction (at_time (now k) db) (TestRollback_txn co tid) vars in
  (db, vars).

(** [TestRollback], its goroutines taking effect in the order [order] (a
    rearrangement of [indices 10]). *)
Definition TestRollback (now : N -> gorm.Time) (order : list N) (db : DB)
  : verdict :=
  let nThreads := 10 in
  let co := mkCounterOperator in
  let '((_, err), db) := CreateCounter co Background (at_time (now 0) db) "n0" in
  match err with
  | Some e => FatalErr (StoreErr e)
  | None =>
      let '(_, (values, ec)) :=
        run_goroutines (TestRollback_goroutine now co) 1 order db
          (empty_set N, []) in
      match ec with
      | e :: _ => FatalErr e
      | [] => check_values (nThreads / 2) values
      end
  end.

(** How many goroutines of [TestRollback] commit: those with an odd [tid]. *)
Definition committing (order : list N) : nat :=
  List.length (filter (fun tid => negb (tid mod 2 =? 0)) order).

(** The state the goroutines of the three single-counter tests keep: the
    counter [n0] is at [j], and the values recorded so far are
    [1, ..., j]; no error was sent. *)
Definition counted (j : nat) (db : DB) (recorded : list N)
    (ec : list go_error) : Prop :=
  WF db
  /\ (exists c, active_counter db "n0" = Some c /\ Value c = N.of_nat j)
  /\ recorded = map N.of_nat (seq 1 j)
  /\ ec = [].

(** [map[string]map[uint32]bool], the inner maps as the sets of their
    keys; entries are kept in the order the keys were first written. *)
Fixpoint map_get (key : string) (m : list (string * set N))
  : option (set N) :=
  match m with
  | [] => None
  | (k, v) :: rest => if String.eqb k key then Some v else map_get key rest
  end.

Fixpoint map_put (key : string) (v : set N) (m : list (string * set N))
  : list (string * set N) :=
  match m with
  | [] => [(key, v)]
  | (k, w) :: rest =>
      if String.eqb k key then (k, v) :: rest else (k, w) :: map_put key v rest
  end.

(** [if values[key] == nil { values[key] = make(map[uint32]bool) }]
    followed by [values[key][x] = true]. *)
Definition record_value (key : string) (x : N)
    (values : list (string * set N)) : list (string * set N) :=
  let values :=
    match map_get key values with
    | None => map_put key (empty_set N) values
    | Some _ => values
    end in
  match map_get key values with
  | Some inner => map_put key (set_add N.eq_dec x inner) values
  | None => values
  end.

(** The function [TestMultipleNamesConcurrent] hands to [db.Transaction]. *)
Definition TestMultipleNamesConcurrent_txn (co : CounterOperator) (tx : DB)
    (vars : list (string * set N) * list go_error)
  : option go_error * DB * (list (string * set N) * list go_error) :=
  let '(values, ec) := vars in
  let '((c0, err), tx) := Next co Background tx "n0" in
  match err with
  | Some e => (Some (StoreErr e), tx, (values, ec ++ [StoreErr e]))
  | None =>
      let '((c1, err), tx) := Next co Background tx "n1" in
      match err with
      | Some e => (Some (StoreErr e), tx, (values, ec ++ [StoreErr e]))
      | None =>
          let values := record_value "n0" (Value c0) values in
          let values := record_value "n1" (Value c1) values in
          (None, tx, (values, ec))
      end
  end.

(** [for k, v := range values { ... }] with the two checks of its body,
    visiting the entries in the order they are kept. *)
Fixpoint check_each (n : N) (values : list (string * set N)) : verdict :=
  match values with
  | [] => PASS
  | (k, v) :: rest =>
      if negb (N.of_nat (List.length v) =? n)
      then FatalMsg ("expected " ++ fmt_d n
                     ++ ", got " ++ fmt_d (N.of_nat (List.length v)))
      else
        match for_range 1 (n + 1)
                (fun i (_ : unit) =>
                   if negb (set_mem N.eq_dec (uint32 i) v)
                   then inl (FatalMsg ("missing " ++ fmt_d i ++ " in " ++ k))
                   else inr tt)
                tt
        with
        | inl f => f
        | inr _ => check_each n rest
        end
  end.

(** [TestMultipleNamesConcurrent] *)
Definition TestMultipleNamesConcurrent (now : N -> gorm.Time) (db : DB)
  : verdict :=
  let nThreads := 10 in
  let co := mkCounterOperator in
  let '((_, err), db) := CreateCounter co Background (at_time (now 0) db) "n0" in
  match err with
  | Some e => FatalErr (StoreErr e)
  | None =>
      let '((_, err), db) :=
        CreateCounter co Background (at_time (now 1) db) "n1" in
      match err with
      | Some e => FatalErr (StoreErr e)
      | None =>
          let '(_, (values, ec)) :=
            run_goroutines
              (fun k _ db vars =>
                 let '(_, db, vars) :=
                   Transaction (at_time (now k) db)
                     (TestMultipleNamesConcurrent_txn co) vars in
                 (db, vars))
              2 (indices nThreads) db ([], []) in
          match ec with
          | e :: _ => FatalErr e
          | [] => check_each nThreads values
          end
      end
  end.

(** What the goroutines of [TestMultipleNamesConcurrent] have recorded
    once [j] of them have committed. *)
Definition recorded_both (j : nat) : list (string * set N) :=
  match j with
  | O => []
  | Datatypes.S _ =>
      [("n0"%string, map N.of_nat (seq 1 j));
       ("n1"%string, map N.of_nat (seq 1 j))]
  end.

(** A table that breaks the schema: two rows named [n0], one active and
    one soft-deleted.  Here the [Save] of [Next] is what fails. *)
Definition db_name_twice : DB :=
  {| rows := [ {| Model := {| gorm.ID := 1; gorm.CreatedAt := 1;
                             gorm.UpdatedAt := 1; gorm.DeletedAt := None |};
                  Name := "n0"; Value := 7 |};
               {| Model := {| gorm.ID := 2; gorm.CreatedAt := 2;
                             gorm.UpdatedAt := 2; gorm.DeletedAt := Some 3 |};
                  Name := "n0"; Value := 4 |} ];
     NowFunc := 5 |}.

(** * Facts about lists *)

Section ListFacts.

Context {A B : Type}.

Lemma distinct_NoDup (eqb : A -> A -> bool)
    (eqb_eq : forall x y, eqb x y = true <-> x = y) (l : list A) :
  distinct eqb l = true <-> NoDup l.
Proof.
  induction l as [|x l IH]; simpl.
  - split; [constructor | reflexivity].
  - rewrite andb_true_iff, negb_true_iff, IH. split.
    + intros [Hx Hl]. constructor; [|assumption].
      intro Hin. assert (existsb (eqb x) l = true) as E.
      { apply existsb_exists. exists x. split; [assumption | now apply eqb_eq]. }
      congruence.
    + intro H. inversion H as [|? ? Hx Hl]; subst. split; [|assumption].
      destruct (existsb (eqb x) l) eqn:E; [|reflexivity].
      apply existsb_exists in E. destruct E as [y [Hy Hxy]].
      apply eqb_eq in Hxy. subst y. contradiction.
Qed.

Lemma NoDup_map_eq (f : A -> B) (l : list A) (x y : A) :
  NoDup (map f l) -> In x l -> In y l -> f x = f y -> x = y.
Proof.
  induction l as [|a l IH]; simpl; [contradiction|].
  intros H Hx Hy E. inversion H as [|? ? Ha Hl]; subst.
  destruct Hx as [->|Hx], Hy as [->|Hy].
  - reflexivity.
  - exfalso. apply Ha. rewrite E. now apply in_map.
  - exfalso. apply Ha. rewrite <- E. now apply in_map.
  - now apply IH.
Qed.

Lemma find_unique (p : A -> bool) (l : list A) (c : A) :
  In c l -> p c = true -> (forall r, In r l -> p r = true -> r = c) ->
  find p l = Some c.
Proof.
  intros Hin Hp Hu. destruct (find p l) as [r|] eqn:E.
  - apply find_some in E. destruct E as [Hr Hpr]. f_equal. now apply Hu.
  - pose proof (find_none _ _ E c Hin). congruence.
Qed.

Lemma find_map_frame (p : A -> bool) (f : A -> A) (l : list A) :
  (forall r, In r l -> p r = true -> f r = r) ->
  (forall r, In r l -> p r = false -> p (f r) = false) ->
  find p (map f l) = find p l.
Proof.
  induction l as [|a l IH]; simpl; intros Hk Hn; [reflexivity|].
  destruct (p a) eqn:E.
  - rewrite (Hk a (or_introl eq_refl) E), E. reflexivity.
  - rewrite (Hn a (or_introl eq_refl) E). apply IH; auto.
Qed.

Lemma find_app_miss (p : A -> bool) (l : list A) (x : A) :
  p x = false -> find p (l ++ [x]) = find p l.
Proof.
  intro Hx. induction l as [|a l IH]; simpl.
  - now rewrite Hx.
  - destruct (p a); [reflexivity | assumption].
Qed.

Lemma find_app_new (p : A -> bool) (l : list A) (x : A) :
  find p l = None -> p x = true -> find p (l ++ [x]) = Some x.
Proof.
  intros Hl Hx. induction l as [|a l IH]; simpl in *.
  - now rewrite Hx.
  - destruct (p a); [discriminate | auto].
Qed.

Lemma find_none_filter (p : A -> bool) (l : list A) :
  find p l = None <-> filter p l = [].
Proof.
  induction l as [|a l IH]; simpl; [tauto|].
  destruct (p a); [split; discriminate | assumption].
Qed.

Lemma find_none_existsb (p : A -> bool) (l : list A) :
  find p l = None <-> existsb p l = false.
Proof.
  induction l as [|a l IH]; simpl; [tauto|].
  destruct (p a); simpl; [split; discriminate | assumption].
Qed.

Lemma NoDup_snoc (l : list A) (x : A) :
  NoDup l -> ~ In x l -> NoDup (l ++ [x]).
Proof.
  intros Hl Hx. apply NoDup_app; [assumption | repeat constructor; simpl; tauto |].
  intros a Ha [<-|[]]. contradiction.
Qed.

End ListFacts.

(** * Facts about the store *)

Lemma well_formed_WF (tx : DB) : well_formed tx = true <-> WF tx.
Proof.
  unfold well_formed. rewrite !andb_true_iff, !forallb_forall.
  rewrite (distinct_NoDup N.eqb N.eqb_eq), (distinct_NoDup String.eqb String.eqb_eq).
  split.
  - intros [[[Hi Hz] Hn] Hv]. constructor; try assumption.
    + intros r Hr. specialize (Hz r Hr). apply negb_true_iff in Hz.
      now apply N.eqb_neq.
    + intros r Hr. now apply N.ltb_lt, Hv.
  - intros [Hi Hz Hn Hv]. repeat split; try assumption.
    + intros r Hr. apply negb_true_iff, N.eqb_neq. now apply Hz.
    + intros r Hr. now apply N.ltb_lt, Hv.
Qed.

Lemma WF_at_time (t : gorm.Time) (tx : DB) : WF tx -> WF (at_time t tx).
Proof. intros [Hi Hz Hn Hv]. constructor; assumption. Qed.

Lemma WF_same_name (tx : DB) (r r' : Counter) :
  WF tx -> In r (rows tx) -> In r' (rows tx) -> Name r = Name r' -> r = r'.
Proof. intros H. apply NoDup_map_eq, (wf_names _ H). Qed.

Lemma WF_same_ID (tx : DB) (r r' : Counter) :
  WF tx -> In r (rows tx) -> In r' (rows tx) -> ID_of r = ID_of r' -> r = r'.
Proof. intros H. apply NoDup_map_eq, (wf_ids _ H). Qed.

Lemma matches_true (n : string) (r : Counter) :
  Store.matches n r = true <-> Name r = n /\ is_active r = true.
Proof. unfold Store.matches. now rewrite andb_true_iff, String.eqb_eq. Qed.

Lemma active_counter_In (tx : DB) (n : string) (c : Counter) :
  active_counter tx n = Some c ->
  In c (rows tx) /\ Name c = n /\ is_active c = true.
Proof.
  intro H. apply find_some in H. destruct H as [Hin Hm].
  apply matches_true in Hm. tauto.
Qed.

Lemma active_counter_lookup (tx : DB) (n : string) (c : Counter) :
  WF tx -> active_counter tx n = Some c -> lookup tx n = Some c.
Proof.
  intros Hwf H. apply active_counter_In in H. destruct H as [Hin [Hn Ha]].
  apply find_unique; [assumption | now apply String.eqb_eq |].
  intros r Hr E. apply String.eqb_eq in E.
  apply (WF_same_name tx); congruence.
Qed.

Lemma lookup_active_counter (tx : DB) (n : string) (c : Counter) :
  WF tx -> lookup tx n = Some c -> is_active c = true ->
  active_counter tx n = Some c.
Proof.
  intros Hwf H Ha. apply find_some in H. destruct H as [Hin Hn].
  apply String.eqb_eq in Hn.
  apply find_unique; [assumption | now apply matches_true |].
  intros r Hr E. apply matches_true in E.
  apply (WF_same_name tx); try assumption. destruct E. congruence.
Qed.

Lemma lookup_None_active (tx : DB) (n : string) :
  lookup tx n = None -> active_counter tx n = None.
Proof.
  intro H. apply find_none_existsb. apply find_none_existsb in H.
  destruct (existsb (Store.matches n) (rows tx)) eqn:E; [|reflexivity].
  apply existsb_exists in E. destruct E as [r [Hr Hm]].
  apply matches_true in Hm. destruct Hm as [Hn _].
  assert (existsb (fun r => String.eqb (Name r) n) (rows tx) = true) as E'.
  { apply existsb_exists. exists r. split; [assumption | now apply String.eqb_eq]. }
  unfold lookup in H. congruence.
Qed.

(** ** [First] *)

Lemma first_by_ID_In (l : list Counter) (r : Counter) :
  Store.first_by_ID l = Some r -> In r l.
Proof.
  revert r. induction l as [|a l IH]; simpl; intros r H; [discriminate|].
  destruct (Store.first_by_ID l) as [r'|].
  - destruct (ID_of a <=? ID_of r'); inversion H; subst; auto.
  - inversion H; auto.
Qed.

Lemma first_by_ID_None (l : list Counter) :
  Store.first_by_ID l = None -> l = [].
Proof.
  destruct l as [|a l]; simpl; [reflexivity|].
  destruct (Store.first_by_ID l) as [r'|]; [|discriminate].
  destruct (ID_of a <=? ID_of r'); discriminate.
Qed.

Lemma First_not_found (tx : DB) (n : string) (d : Counter) :
  active_counter tx n = None ->
  Store.First tx n d = (d, Some gorm.ErrRecordNotFound).
Proof.
  intro H. unfold Store.First. apply find_none_filter in H. now rewrite H.
Qed.

Lemma First_found_some (tx : DB) (n : string) (d : Counter) :
  active_counter tx n <> None ->
  exists r, Store.First tx n d = (r, None)
            /\ In r (rows tx) /\ Store.matches n r = true.
Proof.
  intro H. unfold Store.First.
  destruct (Store.first_by_ID (filter (Store.matches n) (rows tx))) as [r|] eqn:E.
  - exists r. split; [reflexivity|].
    apply first_by_ID_In in E. now apply filter_In in E.
  - exfalso. apply H. apply find_none_filter. now apply first_by_ID_None.
Qed.

Lemma First_found (tx : DB) (n : string) (d c : Counter) :
  WF tx -> active_counter tx n = Some c -> Store.First tx n d = (c, None).
Proof.
  intros Hwf H.
  destruct (First_found_some tx n d) as [r [E [Hr Hm]]]; [congruence|].
  rewrite E. f_equal.
  apply active_counter_In in H. destruct H as [Hc [Hn _]].
  apply matches_true in Hm. destruct Hm as [Hrn _].
  apply (WF_same_name tx); congruence.
Qed.

(** ** [Create] *)

Lemma next_ID_above (l : list Counter) (r : Counter) :
  In r l -> ID_of r < Store.next_ID l.
Proof.
  unfold Store.next_ID. induction l as [|a l IH]; simpl; [contradiction|].
  intros [->|H]; [lia|]. specialize (IH H). lia.
Qed.

Lemma fresh_row_fields (tx : DB) (n : string) :
  Name (fresh_row tx n) = n /\ Value (fresh_row tx n) = 0
  /\ is_active (fresh_row tx n) = true
  /\ ID_of (fresh_row tx n) = Store.next_ID (rows tx).
Proof. repeat split. Qed.

Lemma CreateCounter_fresh (co : CounterOperator) (ctx : Context) (tx : DB)
    (n : string) :
  lookup tx n = None ->
  CreateCounter co ctx tx n
  = ((fresh_row tx n, None),
     {| rows := rows tx ++ [fresh_row tx n]; NowFunc := NowFunc tx |}).
Proof.
  intro H. unfold CreateCounter, Store.Create. fold (fresh_row tx n).
  destruct (existsb _ (rows tx)) eqn:E; [|reflexivity].
  exfalso. apply existsb_exists in E. destruct E as [r [Hr Hc]].
  apply orb_true_iff in Hc. destruct Hc as [Hc|Hc].
  - apply N.eqb_eq in Hc. pose proof (next_ID_above _ _ Hr) as Hlt.
    destruct (fresh_row_fields tx n) as [_ [_ [_ Hid]]]. lia.
  - pose proof (find_none _ _ H r Hr) as Hf. simpl in Hf, Hc. congruence.
Qed.

Lemma CreateCounter_taken (co : CounterOperator) (ctx : Context) (tx : DB)
    (n : string) :
  lookup tx n <> None ->
  CreateCounter co ctx tx n = ((Counter_zero, Some gorm.ErrDuplicatedKey), tx).
Proof.
  intro H. unfold CreateCounter, Store.Create. fold (fresh_row tx n).
  destruct (existsb _ (rows tx)) eqn:E; [reflexivity|].
  exfalso. apply H. apply find_none_existsb.
  destruct (existsb (fun r => String.eqb (Name r) n) (rows tx)) eqn:E'; [|reflexivity].
  apply existsb_exists in E'. destruct E' as [r [Hr Hn]].
  assert (existsb
            (fun r => (ID_of r =? ID_of (fresh_row tx n))
                      || String.eqb (Name r) (Name (fresh_row tx n))) (rows tx)
          = true) as E''.
  { apply existsb_exists. exists r. split; [assumption|].
    apply orb_true_iff. right. exact Hn. }
  congruence.
Qed.

Lemma CreateCounter_active_taken (co : CounterOperator) (ctx : Context)
    (tx : DB) (n : string) (c : Counter) :
  active_counter tx n = Some c ->
  CreateCounter co ctx tx n = ((Counter_zero, Some gorm.ErrDuplicatedKey), tx).
Proof.
  intro H. apply CreateCounter_taken. intro Hl.
  apply lookup_None_active in Hl. congruence.
Qed.

(** ** [Save] of a row that was just read *)

Lemma update_all_ids (c' : Counter) (l : list Counter) :
  map ID_of (Store.update_all c' l) = map ID_of l.
Proof.
  unfold Store.update_all. rewrite map_map. apply map_ext. intro r.
  unfold Store.hit. destruct (ID_of r =? ID_of c') eqn:E; simpl; [|reflexivity].
  apply N.eqb_eq in E. destruct (is_active r); congruence.
Qed.

Lemma update_all_names (c c' : Counter) (l : list Counter) :
  NoDup (map ID_of l) -> In c l -> ID_of c' = ID_of c -> Name c' = Name c ->
  map Name (Store.update_all c' l) = map Name l.
Proof.
  intros Hnd Hc Hid Hn. unfold Store.update_all. rewrite map_map.
  apply map_ext_in. intros r Hr. unfold Store.hit.
  destruct (ID_of r =? ID_of c') eqn:E; simpl; [|reflexivity].
  apply N.eqb_eq in E. destruct (is_active r); [|reflexivity].
  assert (r = c) by (apply (NoDup_map_eq ID_of l); congruence).
  congruence.
Qed.

Lemma update_all_In (c c' : Counter) (l : list Counter) :
  In c l -> Store.hit c' c = true -> In c' (Store.update_all c' l).
Proof.
  intros Hc Hh. unfold Store.update_all. apply in_map_iff.
  exists c. now rewrite Hh.
Qed.

Lemma update_all_inv (c' r : Counter) (l : list Counter) :
  In r (Store.update_all c' l) -> r = c' \/ In r l.
Proof.
  unfold Store.update_all. intro H. apply in_map_iff in H.
  destruct H as [x [Hx Hin]]. destruct (Store.hit c' x); subst; auto.
Qed.

Lemma Save_existing (tx : DB) (c c1 : Counter) :
  WF tx -> In c (rows tx) -> is_active c = true ->
  ID_of c1 = ID_of c -> Name c1 = Name c ->
  Store.Save tx c1
  = (set_UpdatedAt c1 (NowFunc tx), None,
     {| rows := Store.update_all (set_UpdatedAt c1 (NowFunc tx)) (rows tx);
        NowFunc := NowFunc tx |}).
Proof.
  intros Hwf Hc Ha Hid Hn. unfold Store.Save.
  assert ((ID_of c1 =? 0) = false) as ->.
  { apply N.eqb_neq. rewrite Hid. now apply (wf_ids_nonzero _ Hwf). }
  cbv zeta.
  assert (existsb (Store.hit (set_UpdatedAt c1 (NowFunc tx))) (rows tx) = true) as ->.
  { apply existsb_exists. exists c. split; [assumption|].
    unfold Store.hit. rewrite Ha, andb_true_r. apply N.eqb_eq.
    symmetry. exact Hid. }
  assert (Store.name_taken (ID_of (set_UpdatedAt c1 (NowFunc tx)))
            (Name (set_UpdatedAt c1 (NowFunc tx))) (rows tx) = false) as ->.
  { unfold Store.name_taken.
    destruct (existsb _ (rows tx)) eqn:E; [|reflexivity].
    exfalso. apply existsb_exists in E. destruct E as [r [Hr Hb]].
    apply andb_true_iff in Hb. destruct Hb as [Hi Hname].
    apply negb_true_iff, N.eqb_neq in Hi. apply String.eqb_eq in Hname.
    apply Hi. change (ID_of r = ID_of c1). rewrite Hid. f_equal.
    apply (WF_same_name tx); try assumption.
    change (Name r = Name c1) in Hname. congruence. }
  reflexivity.
Qed.

(** ** [Next] *)

Lemma bumped_fields (now : gorm.Time) (c : Counter) :
  Name (bumped now c) = Name c
  /\ Value (bumped now c) = uint32_incr (Value c)
  /\ ID_of (bumped now c) = ID_of c
  /\ is_active (bumped now c) = is_active c.
Proof. repeat split. Qed.

Lemma Next_active (co : CounterOperator) (ctx : Context) (tx : DB)
    (n : string) (c : Counter) :
  WF tx -> active_counter tx n = Some c ->
  Next co ctx tx n
  = ((bumped (NowFunc tx) c, None),
     {| rows := Store.update_all (bumped (NowFunc tx) c) (rows tx);
        NowFunc := NowFunc tx |}).
Proof.
  intros Hwf H. unfold Next. rewrite (First_found tx n Counter_zero c Hwf H).
  apply active_counter_In in H. destruct H as [Hc [_ Ha]].
  cbv zeta.
  rewrite (Save_existing tx c (set_Value c (uint32_incr (Value c))) Hwf Hc Ha
             eq_refl eq_refl).
  reflexivity.
Qed.

Lemma Next_missing (co : CounterOperator) (ctx : Context) (tx : DB)
    (n : string) :
  active_counter tx n = None ->
  Next co ctx tx n = ((Counter_zero, Some gorm.ErrRecordNotFound), tx).
Proof.
  intro H. unfold Next. now rewrite (First_not_found tx n Counter_zero H).
Qed.

Lemma uint32_incr_lt (v : N) : uint32_incr v < uint32_modulus.
Proof. unfold uint32_incr. apply N.mod_lt. discriminate. Qed.

Lemma WF_Next (co : CounterOperator) (ctx : Context) (tx : DB) (n : string) :
  WF tx -> WF (snd (Next co ctx tx n)).
Proof.
  intro Hwf. destruct (active_counter tx n) as [c|] eqn:E.
  - rewrite (Next_active co ctx tx n c Hwf E). simpl snd.
    pose proof (active_counter_In _ _ _ E) as [Hc [Hn Ha]].
    destruct Hwf as [Hi Hz Hnm Hv]. constructor; simpl rows.
    + now rewrite update_all_ids.
    + intros r Hr. apply update_all_inv in Hr. destruct Hr as [->|Hr]; auto.
      change (ID_of c <> 0). auto.
    + rewrite (update_all_names c); auto.
    + intros r Hr. apply update_all_inv in Hr. destruct Hr as [->|Hr]; auto.
      apply uint32_incr_lt.
  - now rewrite (Next_missing co ctx tx n E).
Qed.

Lemma Next_persisted (co : CounterOperator) (ctx : Context) (tx : DB)
    (n : string) (c : Counter) :
  WF tx -> active_counter tx n = Some c ->
  active_counter (snd (Next co ctx tx n)) n = Some (bumped (NowFunc tx) c).
Proof.
  intros Hwf E. pose proof (WF_Next co ctx tx n Hwf) as Hwf'.
  rewrite (Next_active co ctx tx n c Hwf E) in *. simpl snd in *.
  pose proof (active_counter_In _ _ _ E) as [Hc [Hn Ha]].
  assert (In (bumped (NowFunc tx) c)
            (Store.update_all (bumped (NowFunc tx) c) (rows tx))) as Hin.
  { apply (update_all_In c); [assumption|].
    unfold Store.hit. rewrite Ha, andb_true_r. now apply N.eqb_eq. }
  apply find_unique; [exact Hin | apply matches_true; now split |].
  intros r Hr Hm. apply matches_true in Hm. destruct Hm as [Hrn _].
  apply (WF_same_name _ _ _ Hwf'); [exact Hr | exact Hin |].
  rewrite Hrn. symmetry. exact Hn.
Qed.

(** ** [Create] and [Delete] keep the schema *)

Lemma WF_CreateCounter (co : CounterOperator) (ctx : Context) (tx : DB)
    (n : string) :
  WF tx -> WF (snd (CreateCounter co ctx tx n)).
Proof.
  intro Hwf. destruct (lookup tx n) as [r|] eqn:E.
  - rewrite CreateCounter_taken by congruence. exact Hwf.
  - rewrite (CreateCounter_fresh co ctx tx n E). simpl snd.
    destruct Hwf as [Hi Hz Hnm Hv].
    constructor; simpl rows; try rewrite map_app; simpl map.
    + apply NoDup_snoc; [assumption|]. intro Hin. apply in_map_iff in Hin.
      destruct Hin as [r [Hr Hin]]. pose proof (next_ID_above _ _ Hin) as Hlt.
      destruct (fresh_row_fields tx n) as [_ [_ [_ Hid]]]. lia.
    + intros r Hr. apply in_app_or in Hr. destruct Hr as [Hr|[<-|[]]]; auto.
      destruct (fresh_row_fields tx n) as [_ [_ [_ Hid]]]. rewrite Hid.
      unfold Store.next_ID. lia.
    + apply NoDup_snoc; [assumption|]. intro Hin. apply in_map_iff in Hin.
      destruct Hin as [r [Hr Hin]]. pose proof (find_none _ _ E r Hin) as Hf.
      simpl in Hf. apply String.eqb_neq in Hf. apply Hf. exact Hr.
    + intros r Hr. apply in_app_or in Hr. destruct Hr as [Hr|[<-|[]]]; auto.
      reflexivity.
Qed.

Lemma DeleteCounter_eq (co : CounterOperator) (ctx : Context) (tx : DB)
    (n : string) :
  DeleteCounter co ctx tx n
  = (None,
     {| rows := map (fun r => if Store.matches n r
                              then set_DeletedAt r (Some (NowFunc tx)) else r)
                    (rows tx);
        NowFunc := NowFunc tx |}).
Proof. reflexivity. Qed.

Lemma WF_DeleteCounter (co : CounterOperator) (ctx : Context) (tx : DB)
    (n : string) :
  WF tx -> WF (snd (DeleteCounter co ctx tx n)).
Proof.
  intros [Hi Hz Hnm Hv]. rewrite DeleteCounter_eq. simpl snd.
  assert (forall (B : Type) (f : Counter -> B),
             (forall r t, f (set_DeletedAt r t) = f r) ->
             map f (map (fun r => if Store.matches n r
                                  then set_DeletedAt r (Some (NowFunc tx)) else r)
                        (rows tx)) = map f (rows tx)) as Hmap.
  { intros B f Hf. rewrite map_map. apply map_ext. intro r.
    destruct (Store.matches n r); [apply Hf | reflexivity]. }
  constructor; simpl rows.
  - rewrite Hmap; [assumption | reflexivity].
  - intros r Hr. apply in_map_iff in Hr. destruct Hr as [x [<- Hx]].
    destruct (Store.matches n x); [change (ID_of x <> 0)|]; auto.
  - rewrite Hmap; [assumption | reflexivity].
  - intros r Hr. apply in_map_iff in Hr. destruct Hr as [x [<- Hx]].
    destruct (Store.matches n x); [change (Value x < uint32_modulus)|]; auto.
Qed.

Lemma WF_exec (co : CounterOperator) (ctx : Context) (tx : DB) (c : call) :
  WF tx -> WF (snd (exec co ctx tx c)).
Proof.
  intro Hwf. destruct c as [n|n|n]; simpl exec.
  - now apply WF_CreateCounter.
  - now apply WF_Next.
  - pose proof (WF_DeleteCounter co ctx tx n Hwf) as H.
    rewrite DeleteCounter_eq in H. exact H.
Qed.

Lemma run_cons (co : CounterOperator) (ctx : Context) (t : gorm.Time)
    (c : call) (tr : list (gorm.Time * call)) (tx : DB) :
  run co ctx ((t, c) :: tr) tx
  = (fst (exec co ctx (at_time t tx) c)
       :: fst (run co ctx tr (snd (exec co ctx (at_time t tx) c))),
     snd (run co ctx tr (snd (exec co ctx (at_time t tx) c)))).
Proof.
  simpl. destruct (exec co ctx (at_time t tx) c) as [r tx']. simpl.
  destruct (run co ctx tr tx') as [rs tx'']. reflexivity.
Qed.

Lemma WF_run (co : CounterOperator) (ctx : Context)
    (tr : list (gorm.Time * call)) (tx : DB) :
  WF tx -> WF (snd (run co ctx tr tx)).
Proof.
  revert tx. induction tr as [|[t c] tr IH]; intros tx Hwf; [exact Hwf|].
  rewrite run_cons. simpl snd. apply IH, WF_exec, WF_at_time, Hwf.
Qed.

(** Every table the operator can build from the empty one satisfies the
    schema. *)
Lemma WF_reachable (co : CounterOperator) (ctx : Context)
    (tr : list (gorm.Time * call)) :
  well_formed (snd (run co ctx tr empty_DB)) = true.
Proof. apply well_formed_WF, WF_run, well_formed_WF. reflexivity. Qed.

(** ** Frame: statements about one name leave the other rows alone *)

Lemma about_lookup (b : string) : about b (fun r => String.eqb (Name r) b).
Proof. intros r H. now apply String.eqb_eq. Qed.

Lemma about_matches (b : string) : about b (Store.matches b).
Proof. intros r H. now apply matches_true in H. Qed.

Lemma about_false (b : string) (p : Counter -> bool) (r : Counter) :
  about b p -> Name r <> b -> p r = false.
Proof.
  intros Hp Hr. destruct (p r) eqn:E; [|reflexivity].
  exfalso. apply Hr. now apply Hp.
Qed.

Lemma CreateCounter_frame (co : CounterOperator) (ctx : Context) (tx : DB)
    (a b : string) (p : Counter -> bool) :
  a <> b -> about b p ->
  find p (rows (snd (CreateCounter co ctx tx a))) = find p (rows tx).
Proof.
  intros Hab Hp. destruct (lookup tx a) as [r|] eqn:E.
  - rewrite CreateCounter_taken by congruence. reflexivity.
  - rewrite (CreateCounter_fresh co ctx tx a E). simpl.
    apply find_app_miss. apply (about_false b); assumption.
Qed.

Lemma DeleteCounter_frame (co : CounterOperator) (ctx : Context) (tx : DB)
    (a b : string) (p : Counter -> bool) :
  a <> b -> about b p ->
  find p (rows (snd (DeleteCounter co ctx tx a))) = find p (rows tx).
Proof.
  intros Hab Hp. rewrite DeleteCounter_eq. simpl.
  apply find_map_frame.
  - intros r _ Hr. destruct (Store.matches a r) eqn:E; [|reflexivity].
    apply matches_true in E. apply Hp in Hr. destruct E. congruence.
  - intros r _ Hr. destruct (Store.matches a r) eqn:E; [|assumption].
    apply matches_true in E. destruct E as [E _].
    apply (about_false b); [assumption|]. simpl. congruence.
Qed.

Lemma Next_frame (co : CounterOperator) (ctx : Context) (tx : DB)
    (a b : string) (p : Counter -> bool) :
  WF tx -> a <> b -> about b p ->
  find p (rows (snd (Next co ctx tx a))) = find p (rows tx).
Proof.
  intros Hwf Hab Hp. destruct (active_counter tx a) as [c|] eqn:E.
  - rewrite (Next_active co ctx tx a c Hwf E). simpl.
    apply active_counter_In in E. destruct E as [Hc [Hn Ha]].
    assert (forall r, In r (rows tx) ->
                      Store.hit (bumped (NowFunc tx) c) r = true -> Name r = a)
      as Hhit.
    { intros r Hr Hh. unfold Store.hit in Hh. apply andb_true_iff in Hh.
      destruct Hh as [Hh _]. apply N.eqb_eq in Hh.
      assert (r = c) by (apply (WF_same_ID tx); assumption). congruence. }
    apply find_map_frame.
    + intros r Hr Hpr.
      destruct (Store.hit (bumped (NowFunc tx) c) r) eqn:Hh; [|reflexivity].
      apply Hhit in Hh; [|assumption]. apply Hp in Hpr. congruence.
    + intros r Hr Hpr.
      destruct (Store.hit (bumped (NowFunc tx) c) r) eqn:Hh; [|assumption].
      apply (about_false b); [assumption|]. simpl. congruence.
  - now rewrite (Next_missing co ctx tx a E).
Qed.

Lemma CreateCounter_persisted (co : CounterOperator) (ctx : Context) (tx : DB)
    (n : string) :
  lookup tx n = None ->
  lookup (snd (CreateCounter co ctx tx n)) n = Some (fresh_row tx n)
  /\ active_counter (snd (CreateCounter co ctx tx n)) n = Some (fresh_row tx n).
Proof.
  intro H. rewrite (CreateCounter_fresh co ctx tx n H). simpl snd.
  split; apply find_app_new.
  - exact H.
  - simpl. apply String.eqb_refl.
  - now apply lookup_None_active.
  - apply matches_true. now split.
Qed.

Lemma CreateCounter_ok_inv (co : CounterOperator) (ctx : Context) (tx : DB)
    (n : string) :
  snd (fst (CreateCounter co ctx tx n)) = None -> lookup tx n = None.
Proof.
  intro H. destruct (lookup tx n) as [r|] eqn:E; [|reflexivity].
  rewrite CreateCounter_taken in H by congruence. discriminate.
Qed.

(** ** Runs of [Next] on one counter *)

Lemma add_incr_mod (v i : N) :
  (uint32_incr v + i) mod uint32_modulus = (v + (i + 1)) mod uint32_modulus.
Proof.
  unfold uint32_incr. rewrite N.Div0.add_mod_idemp_l. f_equal. lia.
Qed.

Lemma nexts_run (co : CounterOperator) (ctx : Context) (n : string)
    (ts : list gorm.Time) :
  forall (tx : DB) (c : Counter),
    WF tx -> active_counter tx n = Some c ->
    errors (fst (run co ctx (nexts n ts) tx)) = repeat None (List.length ts)
    /\ values (fst (run co ctx (nexts n ts) tx))
       = map (fun i => (Value c + N.of_nat i) mod uint32_modulus)
             (seq 1 (List.length ts)).
Proof.
  induction ts as [|t ts IH]; intros tx c Hwf Hc; [split; reflexivity|].
  unfold nexts in *. rewrite map_cons, run_cons. unfold exec.
  pose proof (WF_at_time t tx Hwf) as Hwf'.
  assert (active_counter (at_time t tx) n = Some c) as Hc' by exact Hc.
  pose proof (Next_persisted co ctx _ n c Hwf' Hc') as Hp.
  pose proof (WF_Next co ctx _ n Hwf') as Hwf''.
  destruct (IH _ _ Hwf'' Hp) as [He Hv].
  pose proof (Next_active co ctx _ n c Hwf' Hc') as HN.
  rewrite HN in He, Hv |- *. simpl snd in *.
  simpl fst. unfold errors, values in *. rewrite !map_cons. simpl fst. simpl snd.
  simpl List.length. split.
  - simpl repeat. f_equal. exact He.
  - rewrite Hv. change (seq 1 (S (List.length ts)))
      with (1%nat :: seq 2 (List.length ts)).
    rewrite <- (seq_shift (List.length ts) 1), map_cons, map_map. f_equal.
    + apply map_ext. intro i.
      change (Value (bumped (NowFunc (at_time t tx)) c))
        with (uint32_incr (Value c)).
      rewrite add_incr_mod. f_equal. lia.
Qed.

(** * The operator's contract *)

(** ** [Next] on an active counter *)

(** C1, as amended: on a table that satisfies its schema, [Next] on the
    active counter named [n] with persisted value [v] returns no error and
    a Counter named [n] whose value is [v + 1] reduced modulo [2^32]; that
    Counter is the row persisted under [n] after the call.  The value is
    [v + 1] itself whenever [v] is below [2^32 - 1]. *)
Theorem Next_increments_modulo (co : CounterOperator) (ctx : Context)
    (tx : DB) (n : string) (c : Counter) :
  well_formed tx = true ->
  active_counter tx n = Some c ->
  exists (c' : Counter) (tx' : DB),
    Next co ctx tx n = ((c', None), tx')
    /\ Name c' = n
    /\ Value c' = (Value c + 1) mod 2 ^ 32
    /\ (Value c < uint32_max -> Value c' = Value c + 1)
    /\ active_counter tx' n = Some c'
    /\ lookup tx' n = Some c'.
Proof.
  intros Hwf Hc. apply well_formed_WF in Hwf.
  pose proof (Next_persisted co ctx tx n c Hwf Hc) as Hp.
  pose proof (WF_Next co ctx tx n Hwf) as Hwf'.
  rewrite (Next_active co ctx tx n c Hwf Hc) in Hp, Hwf'. simpl snd in Hp, Hwf'.
  exists (bumped (NowFunc tx) c). eexists.
  split; [apply (Next_active co ctx tx n c Hwf Hc)|].
  apply active_counter_In in Hc. destruct Hc as [_ [Hn _]].
  repeat split.
  - exact Hn.
  - intro Hlt. change (Value (bumped (NowFunc tx) c)) with (uint32_incr (Value c)).
    unfold uint32_incr. apply N.mod_small. unfold uint32_max in Hlt.
    unfold uint32_modulus. lia.
  - exact Hp.
  - now apply active_counter_lookup.
Qed.

Lemma Next_increments_modulo_witness :
  well_formed db_created = true
  /\ option_map Value (active_counter db_created "n0") = Some 0
  /\ exists (c' : Counter) (tx' : DB),
       Next mkCounterOperator Background db_created "n0" = ((c', None), tx')
       /\ Name c' = "n0"%string
       /\ Value c' = 1
       /\ active_counter tx' "n0" = Some c'.
Proof.
  split; [reflexivity|]. split; [reflexivity|].
  destruct (Next_increments_modulo mkCounterOperator Background db_created "n0"
              (fresh_row (at_time 1 empty_DB) "n0") eq_refl eq_refl)
    as [c' [tx' [HN [Hn [Hv [_ [Ha _]]]]]]].
  exists c', tx'. repeat split; assumption.
Defined.

(** At the largest [uint32] the returned and the persisted value are [0],
    not [v + 1]. *)
Lemma Next_at_max_is_not_successor :
  well_formed db_at_max = true
  /\ option_map Value (active_counter db_at_max "n0") = Some 4294967295
  /\ Value (fst (fst (Next mkCounterOperator Background db_at_max "n0"))) = 0
  /\ option_map Value
       (lookup (snd (Next mkCounterOperator Background db_at_max "n0")) "n0")
     = Some 0
  /\ 0 <> 4294967295 + 1.
Proof. repeat split; try reflexivity. discriminate. Qed.

(** ** Sequential calls on a fresh counter *)

(** C2, as amended: on a table that satisfies its schema, once
    [CreateCounter] has created [n], any number [N < 2^32] of consecutive
    [Next] calls on [n] (at any instants) all succeed and return the values
    [1, 2, ..., N] in call order. *)
Theorem sequential_nexts_below_wrap (co : CounterOperator) (ctx : Context)
    (tx : DB) (n : string) (ts : list gorm.Time) :
  well_formed tx = true ->
  snd (fst (CreateCounter co ctx tx n)) = None ->
  N.of_nat (List.length ts) < 2 ^ 32 ->
  let rs := fst (run co ctx (nexts n ts) (snd (CreateCounter co ctx tx n))) in
  errors rs = repeat None (List.length ts)
  /\ values rs = map N.of_nat (seq 1 (List.length ts)).
Proof.
  intros Hwf Hok Hlen rs. apply well_formed_WF in Hwf.
  pose proof (CreateCounter_ok_inv co ctx tx n Hok) as Hnone.
  destruct (CreateCounter_persisted co ctx tx n Hnone) as [_ Ha].
  pose proof (WF_CreateCounter co ctx tx n Hwf) as Hwf'.
  destruct (nexts_run co ctx n ts _ _ Hwf' Ha) as [He Hv].
  split; [exact He|]. unfold rs. rewrite Hv.
  apply map_ext_in. intros i Hi. apply in_seq in Hi.
  change (Value (fresh_row tx n)) with 0. rewrite N.add_0_l.
  apply N.mod_small. change uint32_modulus with (2 ^ 32). lia.
Qed.

Lemma sequential_nexts_below_wrap_witness :
  well_formed empty_DB = true
  /\ snd (fst (CreateCounter mkCounterOperator Background empty_DB "n0")) = None
  /\ N.of_nat (List.length [5; 6; 7]) < 2 ^ 32
  /\ values (fst (run mkCounterOperator Background (nexts "n0" [5; 6; 7])
                    (snd (CreateCounter mkCounterOperator Background
                            empty_DB "n0"))))
     = [1; 2; 3].
Proof.
  split; [reflexivity|]. split; [reflexivity|]. split; [reflexivity|].
  exact (proj2 (sequential_nexts_below_wrap mkCounterOperator Background
                  empty_DB "n0" [5; 6; 7] eq_refl eq_refl eq_refl)).
Defined.

(** The [2^32]-th call on a fresh counter returns [0], so the values
    returned by [2^32] calls are not [1, ..., 2^32]. *)
Lemma sequential_nexts_wrap :
  let ts := repeat 0 (N.to_nat 4294967296) in
  let created := CreateCounter mkCounterOperator Background empty_DB "n0" in
  well_formed empty_DB = true
  /\ snd (fst created) = None
  /\ values (fst (run mkCounterOperator Background (nexts "n0" ts)
                    (snd created)))
     <> map N.of_nat (seq 1 (List.length ts)).
Proof.
  intros ts created. split; [reflexivity|]. split; [reflexivity|].
  assert (List.length ts = N.to_nat 4294967296) as Hlen
      by apply repeat_length.
  clearbody ts.
  remember (N.to_nat 4294967296) as K eqn:HK.
  assert (N.of_nat K = 4294967296) as HKN by (rewrite HK; apply N2Nat.id).
  clear HK.
  assert (WF (snd created)) as Hwf.
  { apply WF_CreateCounter. apply well_formed_WF. reflexivity. }
  assert (active_counter (snd created) "n0" = Some (fresh_row empty_DB "n0"))
    as Ha by reflexivity.
  destruct (nexts_run mkCounterOperator Background "n0" ts _ _ Hwf Ha)
    as [_ Hv].
  unfold gorm.Time in Hv. rewrite Hv, Hlen. intro Heq.
  assert (In K (seq 1 K)) as Hin by (apply in_seq; lia).
  pose proof (proj1 (@map_ext_in_iff nat N _ _ (seq 1 K)) Heq K Hin) as Hat.
  cbv beta in Hat. rewrite HKN in Hat.
  change (Value (fresh_row empty_DB "n0")) with 0 in Hat.
  vm_compute in Hat. discriminate.
Qed.

(** ** [Next] on a missing counter *)

Lemma Save_error (tx : DB) (c : Counter) :
  snd (fst (Store.Save tx c)) <> Some gorm.ErrRecordNotFound.
Proof.
  unfold Store.Save, Store.Create, Store.Upsert.
  repeat match goal with
         | |- context [if ?b then _ else _] => destruct b
         end; simpl; discriminate.
Qed.

Lemma active_counter_None_iff (tx : DB) (n : string) :
  active_counter tx n = None
  <-> forall r, In r (rows tx) -> Name r = n -> is_active r = false.
Proof.
  split.
  - intros H r Hr Hn. pose proof (find_none _ _ H r Hr) as Hm.
    unfold Store.matches in Hm. apply String.eqb_eq in Hn.
    rewrite Hn in Hm. exact Hm.
  - intro H. destruct (active_counter tx n) as [c|] eqn:E; [|reflexivity].
    apply active_counter_In in E. destruct E as [Hc [Hn Ha]].
    rewrite (H c Hc Hn) in Ha. discriminate.
Qed.

(** C3: [Next] returns the record-not-found error exactly when the table
    holds no active row named [n] (none was created, or it is
    soft-deleted); in that case it returns [Counter{}] and the table is
    the one it was given. *)
Theorem Next_not_found_iff (co : CounterOperator) (ctx : Context) (tx : DB)
    (n : string) :
  (snd (fst (Next co ctx tx n)) = Some gorm.ErrRecordNotFound
   <-> active_counter tx n = None)
  /\ (active_counter tx n = None ->
      Next co ctx tx n = ((Counter_zero, Some gorm.ErrRecordNotFound), tx)).
Proof.
  split; [split|]; try apply Next_missing.
  - intro H. destruct (active_counter tx n) as [c|] eqn:E; [|reflexivity].
    exfalso. destruct (First_found_some tx n Counter_zero) as [r [Hf _]];
      [congruence|].
    unfold Next in H. rewrite Hf in H. cbv zeta in H.
    pose proof (Save_error tx (set_Value r (uint32_incr (Value r)))) as Hs.
    destruct (Store.Save tx (set_Value r (uint32_incr (Value r))))
      as [[c' [e|]] tx']; simpl in H, Hs; [congruence | discriminate].
  - intro E. now rewrite (Next_missing co ctx tx n E).
Qed.

Lemma Next_not_found_iff_witness :
  active_counter empty_DB "n0" = None
  /\ Next mkCounterOperator Background empty_DB "n0"
     = ((Counter_zero, Some gorm.ErrRecordNotFound), empty_DB).
Proof.
  split; [reflexivity|].
  apply (proj2 (Next_not_found_iff mkCounterOperator Background empty_DB "n0")).
  reflexivity.
Defined.

(** ** [CreateCounter] *)

(** C4, as amended: when the table holds no row named [n], neither active
    nor soft-deleted, [CreateCounter] returns no error and a Counter with
    name [n] and value [0], and that Counter is the active row persisted
    under [n]. *)
Theorem CreateCounter_on_unused_name (co : CounterOperator) (ctx : Context)
    (tx : DB) (n : string) :
  lookup tx n = None ->
  exists (c : Counter) (tx' : DB),
    CreateCounter co ctx tx n = ((c, None), tx')
    /\ Name c = n /\ Value c = 0
    /\ lookup tx' n = Some c
    /\ active_counter tx' n = Some c.
Proof.
  intro H. destruct (CreateCounter_persisted co ctx tx n H) as [Hl Ha].
  rewrite (CreateCounter_fresh co ctx tx n H) in Hl, Ha. simpl snd in Hl, Ha.
  exists (fresh_row tx n). eexists.
  split; [apply (CreateCounter_fresh co ctx tx n H)|].
  repeat split; assumption.
Qed.

Lemma CreateCounter_on_unused_name_witness :
  lookup empty_DB "n0" = None
  /\ exists (c : Counter) (tx' : DB),
       CreateCounter mkCounterOperator Background empty_DB "n0" = ((c, None), tx')
       /\ Name c = "n0"%string /\ Value c = 0
       /\ lookup tx' "n0" = Some c
       /\ active_counter tx' "n0" = Some c.
Proof.
  split; [reflexivity|].
  apply (CreateCounter_on_unused_name mkCounterOperator Background empty_DB "n0").
  reflexivity.
Defined.

(** No active counter is named [n0] in [db_deleted], yet [CreateCounter]
    fails there: the soft-deleted row still holds the name. *)
Lemma CreateCounter_fails_on_deleted_name :
  well_formed db_deleted = true
  /\ active_counter db_deleted "n0" = None
  /\ CreateCounter mkCounterOperator Background db_deleted "n0"
     = ((Counter_zero, Some gorm.ErrDuplicatedKey), db_deleted).
Proof. repeat split. Qed.

(** C5: when an active counter named [n] exists, [CreateCounter] returns
    [Counter{}] with the duplicate-key error of the unique index on
    [name], and the table is the one it was given. *)
Theorem CreateCounter_duplicate (co : CounterOperator) (ctx : Context)
    (tx : DB) (n : string) (c : Counter) :
  active_counter tx n = Some c ->
  CreateCounter co ctx tx n = ((Counter_zero, Some gorm.ErrDuplicatedKey), tx).
Proof. apply CreateCounter_active_taken. Qed.

Lemma CreateCounter_duplicate_witness :
  active_counter db_created "n0" = Some (fresh_row (at_time 1 empty_DB) "n0")
  /\ CreateCounter mkCounterOperator Background db_created "n0"
     = ((Counter_zero, Some gorm.ErrDuplicatedKey), db_created).
Proof.
  split; [reflexivity|].
  apply (CreateCounter_duplicate mkCounterOperator Background db_created "n0"
           (fresh_row (at_time 1 empty_DB) "n0")).
  reflexivity.
Defined.

(** ** [DeleteCounter] *)

Lemma DeleteCounter_deactivates (co : CounterOperator) (ctx : Context)
    (tx : DB) (n : string) :
  active_counter (snd (DeleteCounter co ctx tx n)) n = None.
Proof.
  rewrite DeleteCounter_eq. simpl snd. apply active_counter_None_iff.
  simpl rows. intros r Hr Hn. apply in_map_iff in Hr.
  destruct Hr as [x [Hx Hin]].
  destruct (Store.matches n x) eqn:E; subst r; [reflexivity|].
  unfold Store.matches in E. apply String.eqb_eq in Hn.
  rewrite Hn in E. exact E.
Qed.

Lemma DeleteCounter_keeps_name (co : CounterOperator) (ctx : Context)
    (tx : DB) (n : string) (r : Counter) :
  lookup tx n = Some r -> lookup (snd (DeleteCounter co ctx tx n)) n <> None.
Proof.
  intros H Hnone. apply find_some in H. destruct H as [Hr Hn].
  rewrite DeleteCounter_eq in Hnone. simpl snd in Hnone.
  pose proof (find_none _ _ Hnone
                (if Store.matches n r
                 then set_DeletedAt r (Some (NowFunc tx)) else r)) as Hf.
  cbv beta in Hf.
  assert (String.eqb
            (Name (if Store.matches n r
                   then set_DeletedAt r (Some (NowFunc tx)) else r)) n = true)
    as Hname by (destruct (Store.matches n r); exact Hn).
  rewrite Hname in Hf. discriminate Hf.
  simpl rows. apply in_map_iff. exists r. split; [reflexivity | assumption].
Qed.

Lemma nexts_missing_run (co : CounterOperator) (ctx : Context) (n : string)
    (ts : list gorm.Time) :
  forall tx : DB,
    active_counter tx n = None ->
    fst (run co ctx (nexts n ts) tx)
    = repeat (Counter_zero, Some gorm.ErrRecordNotFound) (List.length ts)
    /\ rows (snd (run co ctx (nexts n ts) tx)) = rows tx.
Proof.
  induction ts as [|t ts IH]; intros tx H; [split; reflexivity|].
  unfold nexts in *. rewrite map_cons, run_cons. unfold exec.
  assert (active_counter (at_time t tx) n = None) as H' by exact H.
  rewrite (Next_missing co ctx _ n H'). simpl fst. simpl snd.
  destruct (IH _ H') as [Hr Hs]. rewrite Hr, Hs. split; reflexivity.
Qed.

(** C6: [DeleteCounter] returns no error on every table, also when no
    active counter is named [n]; in the table it leaves, [n] names no
    active counter, [Next] on [n] returns [Counter{}] with the
    record-not-found error and changes nothing, and so does each of any
    number of [Next] calls that follow. *)
Theorem DeleteCounter_then_Next_not_found (co : CounterOperator)
    (ctx ctx' : Context) (tx : DB) (n : string) (ts : list gorm.Time) :
  fst (DeleteCounter co ctx tx n) = None
  /\ active_counter (snd (DeleteCounter co ctx tx n)) n = None
  /\ Next co ctx' (snd (DeleteCounter co ctx tx n)) n
     = ((Counter_zero, Some gorm.ErrRecordNotFound),
        snd (DeleteCounter co ctx tx n))
  /\ fst (run co ctx' (nexts n ts) (snd (DeleteCounter co ctx tx n)))
     = repeat (Counter_zero, Some gorm.ErrRecordNotFound) (List.length ts).
Proof.
  pose proof (DeleteCounter_deactivates co ctx tx n) as H.
  split; [reflexivity|]. split; [exact H|]. split.
  - now apply Next_missing.
  - now apply nexts_missing_run.
Qed.

(** ** Other names *)

(** C7: for distinct names [a] and [b], on a table that satisfies its
    schema, [CreateCounter], [Next] and [DeleteCounter] on [a] leave the
    row named [b] as it was: whether it exists, whether it is active, and
    every column of it. *)
Theorem other_names_untouched (co : CounterOperator) (ctx : Context)
    (tx : DB) (a b : string) :
  well_formed tx = true -> a <> b ->
  (lookup (snd (CreateCounter co ctx tx a)) b = lookup tx b
   /\ active_counter (snd (CreateCounter co ctx tx a)) b = active_counter tx b)
  /\ (lookup (snd (Next co ctx tx a)) b = lookup tx b
      /\ active_counter (snd (Next co ctx tx a)) b = active_counter tx b)
  /\ (lookup (snd (DeleteCounter co ctx tx a)) b = lookup tx b
      /\ active_counter (snd (DeleteCounter co ctx tx a)) b
         = active_counter tx b).
Proof.
  intros Hwf Hab. apply well_formed_WF in Hwf.
  pose proof (about_lookup b) as Hl. pose proof (about_matches b) as Hm.
  unfold lookup, active_counter. repeat split.
  - now apply (CreateCounter_frame co ctx tx a b).
  - now apply (CreateCounter_frame co ctx tx a b).
  - now apply (Next_frame co ctx tx a b).
  - now apply (Next_frame co ctx tx a b).
  - now apply (DeleteCounter_frame co ctx tx a b).
  - now apply (DeleteCounter_frame co ctx tx a b).
Qed.

Lemma other_names_untouched_witness :
  well_formed db_two = true /\ "n0"%string <> "n1"%string
  /\ option_map Value
       (active_counter (snd (Next mkCounterOperator Background db_two "n0")) "n1")
     = Some 0
  /\ option_map Value
       (active_counter (snd (Next mkCounterOperator Background db_two "n0")) "n0")
     = Some 2.
Proof.
  split; [reflexivity|]. split; [discriminate|]. split; [|reflexivity].
  assert ("n0"%string <> "n1"%string) as Hne by discriminate.
  destruct (other_names_untouched mkCounterOperator Background db_two
              "n0" "n1" eq_refl Hne) as [_ [[_ H] _]].
  rewrite H. reflexivity.
Defined.

(** ** Creating a name again after deleting it *)

(** C9, as amended: for every name [n] that has a row in the table (an
    active counter, or one already soft-deleted), [DeleteCounter] returns
    no error and a [CreateCounter] on [n] that follows returns [Counter{}]
    with the duplicate-key error and changes nothing: the row is kept with
    its deletion marker and still holds the name. *)
Theorem CreateCounter_after_delete (co : CounterOperator) (ctx ctx' : Context)
    (tx : DB) (n : string) (r : Counter) :
  lookup tx n = Some r ->
  fst (DeleteCounter co ctx tx n) = None
  /\ active_counter (snd (DeleteCounter co ctx tx n)) n = None
  /\ CreateCounter co ctx' (snd (DeleteCounter co ctx tx n)) n
     = ((Counter_zero, Some gorm.ErrDuplicatedKey),
        snd (DeleteCounter co ctx tx n)).
Proof.
  intro H. split; [reflexivity|]. split.
  - apply DeleteCounter_deactivates.
  - apply CreateCounter_taken. now apply (DeleteCounter_keeps_name co ctx tx n r).
Qed.

Lemma CreateCounter_after_delete_witness :
  lookup db_created "n0" = Some (fresh_row (at_time 1 empty_DB) "n0")
  /\ CreateCounter mkCounterOperator Background
       (snd (DeleteCounter mkCounterOperator Background db_created "n0")) "n0"
     = ((Counter_zero, Some gorm.ErrDuplicatedKey),
        snd (DeleteCounter mkCounterOperator Background db_created "n0")).
Proof.
  split; [reflexivity|].
  apply (CreateCounter_after_delete mkCounterOperator Background Background
           db_created "n0" (fresh_row (at_time 1 empty_DB) "n0")).
  reflexivity.
Defined.

(** On the empty table [DeleteCounter] of [n0] returns no error, and the
    [CreateCounter] of [n0] that follows succeeds. *)
Lemma CreateCounter_after_delete_of_nothing :
  fst (DeleteCounter mkCounterOperator Background empty_DB "n0") = None
  /\ snd (fst (CreateCounter mkCounterOperator Background
                 (snd (DeleteCounter mkCounterOperator Background
                         empty_DB "n0")) "n0"))
     = None
  /\ snd (fst (CreateCounter mkCounterOperator Background
                 (snd (DeleteCounter mkCounterOperator Background
                         empty_DB "n0")) "n0"))
     <> Some gorm.ErrDuplicatedKey.
Proof. repeat split. discriminate. Qed.

(** ** The representation boundary *)

(** C10: [Value] is a [uint32] and [Next] increments it modulo [2^32]: on
    every active counter, with value [v], [Next] returns no error and the
    value [(v + 1) mod 2^32], which is below [2^32], and persists it.  So
    on the counter whose value is [2^32 - 1] it returns and persists [0]
    and makes the value smaller: monotonicity does not hold there. *)
Theorem Next_wraps_at_max (co : CounterOperator) (ctx : Context) (tx : DB)
    (n : string) (c : Counter) :
  well_formed tx = true ->
  active_counter tx n = Some c ->
  exists (c' : Counter) (tx' : DB),
    Next co ctx tx n = ((c', None), tx')
    /\ Value c' = (Value c + 1) mod 2 ^ 32
    /\ Value c' < 2 ^ 32
    /\ option_map Value (active_counter tx' n)
       = Some ((Value c + 1) mod 2 ^ 32)
    /\ (Value c = 2 ^ 32 - 1 ->
        Value c' = 0
        /\ option_map Value (active_counter tx' n) = Some 0
        /\ Value c' < Value c).
Proof.
  intros Hwf Hc. apply well_formed_WF in Hwf.
  pose proof (Next_persisted co ctx tx n c Hwf Hc) as Hp.
  rewrite (Next_active co ctx tx n c Hwf Hc) in Hp. simpl snd in Hp.
  exists (bumped (NowFunc tx) c). eexists.
  split; [apply (Next_active co ctx tx n c Hwf Hc)|].
  assert (Value (bumped (NowFunc tx) c) = (Value c + 1) mod 2 ^ 32) as Hm
      by reflexivity.
  split; [exact Hm|]. split; [apply uint32_incr_lt|].
  split; [rewrite Hp; reflexivity|].
  intro Hv.
  assert (Value (bumped (NowFunc tx) c) = 0) as Hz
      by (rewrite Hm, Hv; reflexivity).
  split; [exact Hz|]. split.
  - rewrite Hp. simpl. f_equal. exact Hz.
  - rewrite Hz, Hv. reflexivity.
Qed.

Lemma Next_wraps_at_max_witness :
  well_formed db_at_max = true
  /\ option_map Value (active_counter db_at_max "n0") = Some (2 ^ 32 - 1)
  /\ (exists (c' : Counter) (tx' : DB),
         Next mkCounterOperator Background db_at_max "n0" = ((c', None), tx')
         /\ Value c' = 0
         /\ option_map Value (active_counter tx' "n0") = Some 0)
  /\ well_formed db_two = true
  /\ option_map Value (active_counter db_two "n0") = Some 1
  /\ (exists (c' : Counter) (tx' : DB),
         Next mkCounterOperator Background db_two "n0" = ((c', None), tx')
         /\ Value c' = 2
         /\ option_map Value (active_counter tx' "n0") = Some 2).
Proof.
  split; [reflexivity|]. split; [reflexivity|]. split.
  - destruct (Next_wraps_at_max mkCounterOperator Background db_at_max "n0"
                (current db_at_max "n0") eq_refl eq_refl)
      as [c' [tx' [HN [_ [_ [_ Hmax]]]]]].
    destruct (Hmax eq_refl) as [Hz [Hp _]].
    exists c', tx'. repeat split; assumption.
  - split; [reflexivity|]. split; [reflexivity|].
    destruct (Next_wraps_at_max mkCounterOperator Background db_two "n0"
                (current db_two "n0") eq_refl eq_refl)
      as [c' [tx' [HN [Hm [_ [Hp _]]]]]].
    exists c', tx'. repeat split; assumption.
Defined.

(** ** The value over a sequence of calls *)

Lemma retired_exec (co : CounterOperator) (ctx : Context) (tx : DB)
    (n : string) (c : call) :
  WF tx -> retired tx n -> retired (snd (exec co ctx tx c)) n.
Proof.
  intros Hwf [Hl Ha]. unfold retired.
  destruct c as [a|a|a]; unfold exec;
    try rewrite DeleteCounter_eq; simpl snd;
    try change {| rows := map (fun r => if Store.matches a r
                                        then set_DeletedAt r (Some (NowFunc tx))
                                        else r) (rows tx);
                  NowFunc := NowFunc tx |}
      with (snd (DeleteCounter co ctx tx a));
    destruct (String.eqb_spec a n) as [->|Hne].
  - rewrite CreateCounter_taken by assumption. now split.
  - unfold lookup, active_counter in *.
    rewrite !(CreateCounter_frame co ctx tx a n) by
        (try apply about_lookup; try apply about_matches; assumption).
    now split.
  - rewrite (Next_missing co ctx tx n Ha). now split.
  - unfold lookup, active_counter in *.
    rewrite !(Next_frame co ctx tx a n) by
        (try apply about_lookup; try apply about_matches; assumption).
    now split.
  - split; [|apply DeleteCounter_deactivates].
    destruct (lookup tx n) as [r|] eqn:E; [|congruence].
    now apply (DeleteCounter_keeps_name co ctx tx n r).
  - unfold lookup, active_counter in *.
    rewrite !(DeleteCounter_frame co ctx tx a n) by
        (try apply about_lookup; try apply about_matches; assumption).
    now split.
Qed.

Lemma retired_run (co : CounterOperator) (ctx : Context)
    (tr : list (gorm.Time * call)) (n : string) :
  forall tx : DB, WF tx -> retired tx n -> retired (snd (run co ctx tr tx)) n.
Proof.
  induction tr as [|[t c] tr IH]; intros tx Hwf Hr; [exact Hr|].
  rewrite run_cons. simpl snd. apply IH.
  - apply WF_exec, WF_at_time, Hwf.
  - apply retired_exec; [apply WF_at_time, Hwf | exact Hr].
Qed.

(** Once the counter named [n] is deleted, no sequence of calls makes
    [Next] on [n] succeed again. *)
Lemma Next_after_delete_never_succeeds (co : CounterOperator)
    (ctx : Context) (tx : DB) (n : string) (c : Counter)
    (tr : list (gorm.Time * call)) :
  WF tx -> active_counter tx n = Some c ->
  Next co ctx (snd (run co ctx tr (snd (DeleteCounter co ctx tx n)))) n
  = ((Counter_zero, Some gorm.ErrRecordNotFound),
     snd (run co ctx tr (snd (DeleteCounter co ctx tx n)))).
Proof.
  intros Hwf Hc. apply Next_missing.
  apply (retired_run co ctx tr n).
  - now apply WF_DeleteCounter.
  - split; [|apply DeleteCounter_deactivates].
    apply (DeleteCounter_keeps_name co ctx tx n c).
    now apply active_counter_lookup.
Qed.

Lemma committed_nexts_other (n : string) (t : gorm.Time) (c0 : call)
    (tr : list (gorm.Time * call)) (r : Counter * option gorm.error)
    (rs : list (Counter * option gorm.error)) :
  (forall a, c0 = CallNext a -> snd r = None -> a <> n) ->
  committed_nexts n ((t, c0) :: tr) (r :: rs) = committed_nexts n tr rs.
Proof.
  intro H. destruct r as [x [e|]], c0 as [a|a|a]; try reflexivity.
  simpl. specialize (H a eq_refl eq_refl). apply String.eqb_neq in H.
  now rewrite H.
Qed.

Lemma value_over_run (co : CounterOperator) (ctx : Context)
    (tr : list (gorm.Time * call)) (n : string) :
  forall (tx : DB) (c c' : Counter),
    WF tx ->
    active_counter tx n = Some c ->
    active_counter (snd (run co ctx tr tx)) n = Some c' ->
    Value c'
    = (Value c + committed_nexts n tr (fst (run co ctx tr tx)))
        mod uint32_modulus.
Proof.
  induction tr as [|[t c0] tr IH]; intros tx c c' Hwf Hc Hc'.
  - simpl in Hc'. rewrite Hc in Hc'. inversion Hc'; subst c'.
    simpl. rewrite N.add_0_r. symmetry. apply N.mod_small.
    apply (wf_values _ Hwf). now apply active_counter_In in Hc.
  - rewrite run_cons in Hc' |- *. simpl snd in Hc'. simpl fst.
    pose proof (WF_at_time t tx Hwf) as Hwf0.
    assert (active_counter (at_time t tx) n = Some c) as Hc0 by exact Hc.
    pose proof (WF_exec co ctx _ c0 Hwf0) as Hwf1.
    set (tx0 := at_time t tx) in *.
    destruct c0 as [a|a|a]; destruct (String.eqb_spec a n) as [->|Hne].
    + (* CreateCounter n *)
      rewrite committed_nexts_other by discriminate.
      unfold exec in *.
      rewrite (CreateCounter_active_taken co ctx tx0 n c Hc0) in *.
      now apply IH.
    + (* CreateCounter a *)
      rewrite committed_nexts_other by discriminate.
      apply IH; [exact Hwf1 | | exact Hc'].
      unfold exec, active_counter.
      rewrite (CreateCounter_frame co ctx tx0 a n);
        [exact Hc0 | exact Hne | apply about_matches].
    + (* Next n *)
      unfold exec in *.
      pose proof (Next_persisted co ctx tx0 n c Hwf0 Hc0) as Hp.
      rewrite (IH _ _ c' Hwf1 Hp Hc').
      rewrite (Next_active co ctx tx0 n c Hwf0 Hc0). simpl snd. simpl fst.
      simpl committed_nexts. rewrite String.eqb_refl.
      change (Value (bumped (NowFunc tx0) c)) with (uint32_incr (Value c)).
      rewrite add_incr_mod. f_equal. lia.
    + (* Next a *)
      rewrite committed_nexts_other by (intros ? [= <-] _; exact Hne).
      apply IH; [exact Hwf1 | | exact Hc'].
      unfold exec, active_counter.
      rewrite (Next_frame co ctx tx0 a n);
        [exact Hc0 | exact Hwf0 | exact Hne | apply about_matches].
    + (* DeleteCounter n *)
      exfalso.
      assert (retired (snd (exec co ctx tx0 (CallDelete n))) n) as Hr.
      { unfold exec. rewrite DeleteCounter_eq. simpl snd.
        change (retired (snd (DeleteCounter co ctx tx0 n)) n).
        split; [|apply DeleteCounter_deactivates].
        apply (DeleteCounter_keeps_name co ctx tx0 n c).
        now apply active_counter_lookup. }
      destruct (retired_run co ctx tr n _ Hwf1 Hr) as [_ Hnone].
      congruence.
    + (* DeleteCounter a *)
      rewrite committed_nexts_other by discriminate.
      apply IH; [exact Hwf1 | | exact Hc'].
      unfold exec. rewrite DeleteCounter_eq. simpl snd.
      change (active_counter (snd (DeleteCounter co ctx tx0 a)) n = Some c).
      unfold active_counter.
      rewrite (DeleteCounter_frame co ctx tx0 a n);
        [exact Hc0 | exact Hne | apply about_matches].
Qed.

(** The counter [n0] of [db_at_max] is active before and after one [Next];
    its persisted value goes from [2^32 - 1] down to [0]. *)
Lemma Next_at_max_decreases_value :
  well_formed db_at_max = true
  /\ option_map Value (active_counter db_at_max "n0") = Some 4294967295
  /\ snd (fst (Next mkCounterOperator Background db_at_max "n0")) = None
  /\ option_map Value
       (active_counter
          (snd (run mkCounterOperator Background [(3, CallNext "n0")] db_at_max))
          "n0")
     = Some 0
  /\ 0 < 4294967295.
Proof. repeat split. Qed.

(** * Further properties of the operator *)

(** ** Failures *)

Lemma Save_failure_keeps (tx : DB) (c : Counter) (e : gorm.error) :
  snd (fst (Store.Save tx c)) = Some e -> snd (Store.Save tx c) = tx.
Proof.
  unfold Store.Save, Store.Create, Store.Upsert.
  repeat match goal with
         | |- context [if ?b then _ else _] => destruct b
         end; simpl; intro H; try discriminate; reflexivity.
Qed.

Lemma Create_failure_keeps (tx : DB) (c : Counter) (e : gorm.error) :
  snd (fst (Store.Create tx c)) = Some e -> snd (Store.Create tx c) = tx.
Proof.
  unfold Store.Create. destruct (existsb _ (rows tx)); simpl; intro H;
    [reflexivity | discriminate].
Qed.

(** X1: whenever [CreateCounter] or [Next] returns an error, on any table
    whatever, the Counter it returns is [Counter{}] and the table is the
    one it was given, whichever statement failed: the INSERT of
    [CreateCounter], the [First] of [Next], or its [Save]. *)
Theorem failure_changes_nothing (co : CounterOperator) (ctx : Context)
    (tx : DB) (n : string) :
  (forall e, snd (fst (CreateCounter co ctx tx n)) = Some e ->
             CreateCounter co ctx tx n = ((Counter_zero, Some e), tx))
  /\ (forall e, snd (fst (Next co ctx tx n)) = Some e ->
                Next co ctx tx n = ((Counter_zero, Some e), tx)).
Proof.
  split.
  - intros e. unfold CreateCounter.
    pose proof (Create_failure_keeps tx
                  {| Model := gorm.Model_zero; Name := n; Value := 0 |}) as Hk.
    destruct (Store.Create tx _) as [[c [e'|]] tx']; simpl in *; intro H.
    + inversion H; subst e'. now rewrite (Hk e eq_refl).
    + discriminate.
  - intros e. unfold Next.
    destruct (Store.First tx n Counter_zero) as [c [e'|]]; simpl; intro H.
    + now inversion H.
    + pose proof (Save_failure_keeps tx
                    (set_Value c (uint32_incr (Value c)))) as Hk.
      destruct (Store.Save tx _) as [[c' [e'|]] tx']; simpl in *.
      * inversion H; subst e'. now rewrite (Hk e eq_refl).
      * discriminate.
Qed.

Lemma failure_changes_nothing_witness :
  snd (fst (CreateCounter mkCounterOperator Background db_deleted "n0"))
  = Some gorm.ErrDuplicatedKey
  /\ CreateCounter mkCounterOperator Background db_deleted "n0"
     = ((Counter_zero, Some gorm.ErrDuplicatedKey), db_deleted)
  /\ snd (fst (Next mkCounterOperator Background db_deleted "n0"))
     = Some gorm.ErrRecordNotFound
  /\ Next mkCounterOperator Background db_deleted "n0"
     = ((Counter_zero, Some gorm.ErrRecordNotFound), db_deleted)
  /\ snd (fst (Next mkCounterOperator Background db_name_twice "n0"))
     = Some gorm.ErrDuplicatedKey
  /\ Next mkCounterOperator Background db_name_twice "n0"
     = ((Counter_zero, Some gorm.ErrDuplicatedKey), db_name_twice).
Proof.
  pose proof (failure_changes_nothing mkCounterOperator Background
                db_deleted "n0") as [Hc Hn].
  pose proof (failure_changes_nothing mkCounterOperator Background
                db_name_twice "n0") as [_ Hs].
  split; [reflexivity|]. split; [apply Hc; reflexivity|].
  split; [reflexivity|]. split; [apply Hn; reflexivity|].
  split; [reflexivity|]. apply Hs. reflexivity.
Defined.

(** X2: on a table that satisfies its schema the only error [Next] can
    return is record-not-found: once [First] has read the row, [Save]
    does not fail, so [Next] succeeds exactly when an active counter has
    the name. *)
Theorem Next_fails_only_with_not_found (co : CounterOperator) (ctx : Context)
    (tx : DB) (n : string) :
  well_formed tx = true ->
  (forall e, snd (fst (Next co ctx tx n)) = Some e ->
             e = gorm.ErrRecordNotFound)
  /\ (snd (fst (Next co ctx tx n)) = None <-> active_counter tx n <> None).
Proof.
  intro Hwf. apply well_formed_WF in Hwf.
  destruct (active_counter tx n) as [c|] eqn:E.
  - rewrite (Next_active co ctx tx n c Hwf E). simpl. split.
    + intros e H. discriminate.
    + split; [discriminate | reflexivity].
  - rewrite (Next_missing co ctx tx n E). simpl. split.
    + intros e H. now inversion H.
    + split; [discriminate | congruence].
Qed.

Lemma Next_fails_only_with_not_found_witness :
  well_formed db_created = true
  /\ (snd (fst (Next mkCounterOperator Background db_created "n0")) = None
      <-> active_counter db_created "n0" <> None)
  /\ (snd (fst (Next mkCounterOperator Background db_created "n1")) = None
      <-> active_counter db_created "n1" <> None).
Proof.
  split; [reflexivity|]. split.
  - apply (Next_fails_only_with_not_found mkCounterOperator Background
             db_created "n0" eq_refl).
  - apply (Next_fails_only_with_not_found mkCounterOperator Background
             db_created "n1" eq_refl).
Defined.

(** X3: [CreateCounter] returns an error exactly when some row of the
    table, active or soft-deleted, already has the name, and the error is
    then the duplicate-key one; it returns no error exactly when no row has
    the name. *)
Theorem CreateCounter_fails_iff_name_stored (co : CounterOperator)
    (ctx : Context) (tx : DB) (n : string) :
  (snd (fst (CreateCounter co ctx tx n)) = Some gorm.ErrDuplicatedKey
   <-> lookup tx n <> None)
  /\ (snd (fst (CreateCounter co ctx tx n)) = None <-> lookup tx n = None)
  /\ snd (fst (CreateCounter co ctx tx n)) <> Some gorm.ErrRecordNotFound.
Proof.
  destruct (lookup tx n) as [r|] eqn:E.
  - rewrite CreateCounter_taken by congruence. simpl.
    repeat split; try discriminate; congruence.
  - rewrite (CreateCounter_fresh co ctx tx n E). simpl.
    repeat split; try discriminate; congruence.
Qed.

(** ** Deletion *)

Lemma DeleteCounter_noop (co : CounterOperator) (ctx : Context) (tx : DB)
    (n : string) :
  active_counter tx n = None ->
  rows (snd (DeleteCounter co ctx tx n)) = rows tx.
Proof.
  intro H. rewrite DeleteCounter_eq. simpl.
  rewrite <- (map_id (rows tx)) at 2. apply map_ext_in. intros r Hr.
  now rewrite (find_none _ _ H r Hr).
Qed.

(** X4: [DeleteCounter] on a name that has no active counter leaves every
    row of the table as it was, and deleting a name a second time, at any
    later instant, changes nothing the first deletion left. *)
Theorem DeleteCounter_idempotent (co : CounterOperator) (ctx ctx' : Context)
    (tx : DB) (n : string) (t : gorm.Time) :
  (active_counter tx n = None ->
   rows (snd (DeleteCounter co ctx tx n)) = rows tx)
  /\ rows (snd (DeleteCounter co ctx'
                  (at_time t (snd (DeleteCounter co ctx tx n))) n))
     = rows (snd (DeleteCounter co ctx tx n)).
Proof.
  split; [apply DeleteCounter_noop|].
  apply (DeleteCounter_noop co ctx'
           (at_time t (snd (DeleteCounter co ctx tx n))) n).
  apply (DeleteCounter_deactivates co ctx tx n).
Qed.

Lemma DeleteCounter_idempotent_witness :
  active_counter db_deleted "n0" = None
  /\ rows (snd (DeleteCounter mkCounterOperator Background db_deleted "n0"))
     = rows db_deleted.
Proof.
  split; [reflexivity|].
  apply (proj1 (DeleteCounter_idempotent mkCounterOperator Background
                  Background db_deleted "n0" 0)).
  reflexivity.
Defined.

(** X5: deletion is soft.  On a table that satisfies its schema,
    [DeleteCounter] of the active counter [c] keeps its row: the row named
    [n] is [c] with only [DeletedAt] set, to the instant of the call, so
    key, name, value and the other timestamps are retained; the table has
    as many rows as before, and the schema still holds. *)
Theorem DeleteCounter_keeps_the_row (co : CounterOperator) (ctx : Context)
    (tx : DB) (n : string) (c : Counter) :
  well_formed tx = true ->
  active_counter tx n = Some c ->
  lookup (snd (DeleteCounter co ctx tx n)) n
  = Some (set_DeletedAt c (Some (NowFunc tx)))
  /\ List.length (rows (snd (DeleteCounter co ctx tx n)))
     = List.length (rows tx)
  /\ well_formed (snd (DeleteCounter co ctx tx n)) = true.
Proof.
  intros Hwf Hc. apply well_formed_WF in Hwf.
  pose proof (WF_DeleteCounter co ctx tx n Hwf) as Hwf'.
  split; [|split; [|now apply well_formed_WF]].
  - pose proof (active_counter_In _ _ _ Hc) as [Hin [Hn Ha]].
    assert (In (set_DeletedAt c (Some (NowFunc tx)))
              (rows (snd (DeleteCounter co ctx tx n)))) as Hin'.
    { rewrite DeleteCounter_eq. simpl. apply in_map_iff. exists c.
      split; [|assumption].
      assert (Store.matches n c = true) as -> by (now apply matches_true).
      reflexivity. }
    apply find_unique; [exact Hin' | simpl; now apply String.eqb_eq |].
    intros r Hr E. apply String.eqb_eq in E.
    apply (WF_same_name _ _ _ Hwf'); [exact Hr | exact Hin' |].
    simpl. congruence.
  - rewrite DeleteCounter_eq. simpl. apply length_map.
Qed.

Lemma DeleteCounter_keeps_the_row_witness :
  well_formed db_created = true
  /\ option_map Value (active_counter db_created "n0") = Some 0
  /\ option_map Value
       (lookup (snd (DeleteCounter mkCounterOperator Background
                       (at_time 9 db_created) "n0")) "n0")
     = Some 0
  /\ option_map (fun r => gorm.DeletedAt (Model r))
       (lookup (snd (DeleteCounter mkCounterOperator Background
                       (at_time 9 db_created) "n0")) "n0")
     = Some (Some 9).
Proof.
  split; [reflexivity|]. split; [reflexivity|].
  destruct (DeleteCounter_keeps_the_row mkCounterOperator Background
              (at_time 9 db_created) "n0"
              (fresh_row (at_time 1 empty_DB) "n0") eq_refl eq_refl)
    as [H _].
  rewrite H. split; reflexivity.
Defined.

(** ** The table over a sequence of calls *)

Lemma exec_identities (co : CounterOperator) (ctx : Context) (tx : DB)
    (c : call) :
  WF tx ->
  forall e : option gorm.error,
    snd (fst (exec co ctx tx c)) = e ->
    map identity (rows (snd (exec co ctx tx c)))
    = map identity (rows tx)
      ++ match c, e with
         | CallCreate n, None => [(Store.next_ID (rows tx), n)]
         | _, _ => []
         end.
Proof.
  intros Hwf e He. subst e. destruct c as [n|n|n]; unfold exec.
  - destruct (lookup tx n) as [r|] eqn:E.
    + rewrite CreateCounter_taken by congruence. simpl. now rewrite app_nil_r.
    + rewrite (CreateCounter_fresh co ctx tx n E). simpl.
      now rewrite map_app.
  - assert (map identity (rows (snd (Next co ctx tx n)))
            = map identity (rows tx)) as Hsame.
    { destruct (active_counter tx n) as [c|] eqn:E.
      - rewrite (Next_active co ctx tx n c Hwf E). simpl.
        pose proof (active_counter_In _ _ _ E) as [Hin [Hn Ha]].
        unfold Store.update_all. rewrite map_map. apply map_ext_in.
        intros r Hr. unfold Store.hit.
        destruct (ID_of r =? ID_of (bumped (NowFunc tx) c)) eqn:Ei;
          simpl; [|reflexivity].
        destruct (is_active r); [|reflexivity].
        apply N.eqb_eq in Ei.
        assert (r = c) by (apply (WF_same_ID tx); assumption).
        subst r. reflexivity.
      - now rewrite (Next_missing co ctx tx n E). }
    rewrite Hsame. destruct (snd (fst (Next co ctx tx n)));
      now rewrite app_nil_r.
  - rewrite DeleteCounter_eq. simpl. rewrite app_nil_r, map_map.
    apply map_ext. intro r. destruct (Store.matches n r); reflexivity.
Qed.

Lemma created_names_cons (t : gorm.Time) (c : call)
    (tr : list (gorm.Time * call)) (r : Counter * option gorm.error)
    (rs : list (Counter * option gorm.error)) :
  created_names ((t, c) :: tr) (r :: rs)
  = match c, snd r with
    | CallCreate n, None => [n]
    | _, _ => []
    end ++ created_names tr rs.
Proof. destruct r as [x [e|]], c as [a|a|a]; reflexivity. Qed.

(** X6: rows are never removed, reordered or renamed.  On a table that
    satisfies its schema, after any sequence of calls the keys and names of
    the rows are those of the rows before, in the same order, followed by
    one new row for each [CreateCounter] that returned no error, in call
    order and under the name it was called with. *)
Theorem rows_are_append_only (co : CounterOperator) (ctx : Context)
    (tr : list (gorm.Time * call)) (tx : DB) :
  well_formed tx = true ->
  exists added : list Counter,
    map identity (rows (snd (run co ctx tr tx)))
    = map identity (rows tx) ++ map identity added
    /\ map Name added = created_names tr (fst (run co ctx tr tx)).
Proof.
  intro Hwf. apply well_formed_WF in Hwf. revert tx Hwf.
  induction tr as [|[t c] tr IH]; intros tx Hwf.
  - exists []. simpl. now rewrite app_nil_r.
  - rewrite run_cons.
    pose proof (WF_at_time t tx Hwf) as Hwf0.
    pose proof (WF_exec co ctx _ c Hwf0) as Hwf1.
    pose proof (exec_identities co ctx _ c Hwf0 _ eq_refl) as Hstep.
    revert Hwf1 Hstep.
    destruct (exec co ctx (at_time t tx) c) as [[x e] tx1].
    simpl fst. simpl snd. rewrite created_names_cons. simpl snd.
    intros Hwf1 Hstep. destruct (IH _ Hwf1) as [added [Hid Hnm]].
    rewrite Hid, Hstep. simpl rows.
    destruct e as [e|]; destruct c as [n|n|n];
      try (exists added; rewrite app_nil_r; split; [reflexivity | exact Hnm]).
    exists ({| Model := {| gorm.ID := Store.next_ID (rows tx);
                           gorm.CreatedAt := 0; gorm.UpdatedAt := 0;
                           gorm.DeletedAt := None |};
               Name := n; Value := 0 |} :: added).
    rewrite <- app_assoc. split; [reflexivity|]. simpl. now rewrite Hnm.
Qed.

Lemma rows_are_append_only_witness :
  well_formed db_created = true
  /\ exists added : list Counter,
       map identity
         (rows (snd (run mkCounterOperator Background
                       [(2, CallDelete "n0"); (3, CallCreate "n0");
                        (4, CallCreate "n1"); (5, CallNext "n1")]
                       db_created)))
       = map identity (rows db_created) ++ map identity added
       /\ map Name added = ["n1"%string].
Proof.
  split; [reflexivity|].
  apply (rows_are_append_only mkCounterOperator Background
           [(2, CallDelete "n0"); (3, CallCreate "n0");
            (4, CallCreate "n1"); (5, CallNext "n1")] db_created).
  reflexivity.
Defined.

(** X7: every call keeps the schema.  From a table with distinct non-zero
    keys, distinct names and [uint32] values, any sequence of calls leads
    to such a table again; in particular no two rows, hence no two active
    counters, ever share a name. *)
Theorem schema_is_kept (co : CounterOperator) (ctx : Context)
    (tr : list (gorm.Time * call)) (tx : DB) :
  well_formed tx = true ->
  well_formed (snd (run co ctx tr tx)) = true
  /\ forall r r' : Counter,
       In r (rows (snd (run co ctx tr tx))) ->
       In r' (rows (snd (run co ctx tr tx))) ->
       Name r = Name r' -> r = r'.
Proof.
  intro Hwf. apply well_formed_WF in Hwf.
  pose proof (WF_run co ctx tr tx Hwf) as Hwf'.
  split; [now apply well_formed_WF|].
  intros r r'. now apply WF_same_name.
Qed.

Lemma schema_is_kept_witness :
  well_formed db_two = true
  /\ well_formed
       (snd (run mkCounterOperator Background
               [(4, CallNext "n0"); (5, CallDelete "n1"); (6, CallCreate "n1");
                (7, CallCreate "n2")] db_two))
     = true.
Proof.
  split; [reflexivity|].
  apply (schema_is_kept mkCounterOperator Background
           [(4, CallNext "n0"); (5, CallDelete "n1"); (6, CallCreate "n1");
            (7, CallCreate "n2")] db_two).
  reflexivity.
Defined.

(** ** Calls on different names *)

Lemma Next_cases (co : CounterOperator) (ctx : Context) (tx : DB)
    (n : string) :
  WF tx ->
  Next co ctx tx n
  = match active_counter tx n with
    | Some c =>
        ((bumped (NowFunc tx) c, None),
         {| rows := Store.update_all (bumped (NowFunc tx) c) (rows tx);
            NowFunc := NowFunc tx |})
    | None => ((Counter_zero, Some gorm.ErrRecordNotFound), tx)
    end.
Proof.
  intro Hwf. destruct (active_counter tx n) as [c|] eqn:E.
  - now apply Next_active.
  - now apply Next_missing.
Qed.

Lemma update_all_commute (tx : DB) (ca cb ca' cb' : Counter) :
  WF tx -> In ca (rows tx) -> In cb (rows tx) -> Name ca <> Name cb ->
  ID_of ca' = ID_of ca -> ID_of cb' = ID_of cb ->
  Store.update_all cb' (Store.update_all ca' (rows tx))
  = Store.update_all ca' (Store.update_all cb' (rows tx)).
Proof.
  intros Hwf Ha Hb Hne Hia Hib.
  assert (ID_of ca <> ID_of cb) as Hid.
  { intro E. apply Hne. f_equal. now apply (WF_same_ID tx). }
  assert (Store.hit cb' ca' = false) as Hx.
  { unfold Store.hit. rewrite Hia, Hib.
    assert ((ID_of ca =? ID_of cb) = false) as -> by now apply N.eqb_neq.
    reflexivity. }
  assert (Store.hit ca' cb' = false) as Hy.
  { unfold Store.hit. rewrite Hia, Hib.
    assert ((ID_of cb =? ID_of ca) = false) as ->
        by (apply N.eqb_neq; congruence).
    reflexivity. }
  unfold Store.update_all. rewrite !map_map. apply map_ext. intro r.
  destruct (Store.hit ca' r) eqn:Ea; destruct (Store.hit cb' r) eqn:Eb;
    rewrite ?Hx, ?Hy, ?Ea, ?Eb; try reflexivity.
  exfalso. unfold Store.hit in Ea, Eb.
  apply andb_true_iff in Ea. apply andb_true_iff in Eb.
  destruct Ea as [Ea _]. destruct Eb as [Eb _].
  apply N.eqb_eq in Ea. apply N.eqb_eq in Eb. congruence.
Qed.

(** X8: [Next] calls on two different names do not interfere.  On a table
    that satisfies its schema, calling [Next] on [a] and then on [b] gives
    each call the result it gets when the two are issued in the other
    order, and leaves the same rows; this holds whether or not either
    counter exists. *)
Theorem Next_on_distinct_names_commute (co : CounterOperator) (ctx : Context)
    (tx : DB) (a b : string) (ta tb : gorm.Time) :
  well_formed tx = true -> a <> b ->
  fst (run co ctx [(ta, CallNext a); (tb, CallNext b)] tx)
  = rev (fst (run co ctx [(tb, CallNext b); (ta, CallNext a)] tx))
  /\ rows (snd (run co ctx [(ta, CallNext a); (tb, CallNext b)] tx))
     = rows (snd (run co ctx [(tb, CallNext b); (ta, CallNext a)] tx)).
Proof.
  intros Hwf Hab. apply well_formed_WF in Hwf.
  assert (b <> a) as Hba by congruence.
  rewrite !run_cons. unfold exec. simpl run. simpl fst. simpl snd. simpl rev.
  pose proof (WF_at_time ta tx Hwf) as Hwa.
  pose proof (WF_at_time tb tx Hwf) as Hwb.
  pose proof (WF_Next co ctx _ a Hwa) as Hwa'.
  pose proof (WF_Next co ctx _ b Hwb) as Hwb'.
  assert (active_counter (at_time tb (snd (Next co ctx (at_time ta tx) a))) b
          = active_counter tx b) as Hfb.
  { unfold active_counter. simpl rows.
    apply (Next_frame co ctx (at_time ta tx) a b);
      [exact Hwa | exact Hab | apply about_matches]. }
  assert (active_counter (at_time ta (snd (Next co ctx (at_time tb tx) b))) a
          = active_counter tx a) as Hfa.
  { unfold active_counter. simpl rows.
    apply (Next_frame co ctx (at_time tb tx) b a);
      [exact Hwb | exact Hba | apply about_matches]. }
  rewrite (Next_cases co ctx (at_time tb (snd (Next co ctx (at_time ta tx) a))) b)
    by (apply WF_at_time; exact Hwa').
  rewrite (Next_cases co ctx (at_time ta (snd (Next co ctx (at_time tb tx) b))) a)
    by (apply WF_at_time; exact Hwb').
  rewrite Hfa, Hfb.
  rewrite (Next_cases co ctx (at_time ta tx) a Hwa).
  rewrite (Next_cases co ctx (at_time tb tx) b Hwb).
  change (active_counter (at_time ta tx) a) with (active_counter tx a).
  change (active_counter (at_time tb tx) b) with (active_counter tx b).
  destruct (active_counter tx a) as [ca|] eqn:Ea;
    destruct (active_counter tx b) as [cb|] eqn:Eb;
    simpl; split; try reflexivity.
  apply active_counter_In in Ea. destruct Ea as [Hina [Hna _]].
  apply active_counter_In in Eb. destruct Eb as [Hinb [Hnb _]].
  apply (update_all_commute tx ca cb); try assumption; try reflexivity.
  congruence.
Qed.

Lemma Next_on_distinct_names_commute_witness :
  well_formed db_two = true /\ "n0"%string <> "n1"%string
  /\ values (fst (run mkCounterOperator Background
                    [(7, CallNext "n0"); (8, CallNext "n1")] db_two))
     = [2; 1]
  /\ values (fst (run mkCounterOperator Background
                    [(8, CallNext "n1"); (7, CallNext "n0")] db_two))
     = [1; 2]
  /\ rows (snd (run mkCounterOperator Background
                  [(7, CallNext "n0"); (8, CallNext "n1")] db_two))
     = rows (snd (run mkCounterOperator Background
                    [(8, CallNext "n1"); (7, CallNext "n0")] db_two)).
Proof.
  split; [reflexivity|]. split; [discriminate|].
  split; [reflexivity|]. split; [reflexivity|].
  assert ("n0"%string <> "n1"%string) as Hne by discriminate.
  apply (proj2 (Next_on_distinct_names_commute mkCounterOperator Background
                  db_two "n0" "n1" 7 8 eq_refl Hne)).
Defined.

(** * The test suite *)

Lemma uint32_succ (v i : N) :
  v = uint32 i -> uint32_incr v = uint32 (i + 1).
Proof.
  intros ->. unfold uint32_incr, uint32. apply N.Div0.add_mod_idemp_l.
Qed.

(** One [Next] on an active counter whose value is [uint32(i)], as the
    loops of the tests see it. *)
Lemma Next_in_loop (co : CounterOperator) (ctx : Context) (db : DB)
    (n : string) (c : Counter) (i : N) (t : gorm.Time) :
  WF db -> active_counter db n = Some c -> Value c = uint32 i ->
  exists (c' : Counter) (db' : DB),
    Next co ctx (at_time t db) n = ((c', None), db')
    /\ (Value c' =? uint32 (i + 1)) = true
    /\ WF db'
    /\ active_counter db' n = Some c'
    /\ (forall b, n <> b -> active_counter db' b = active_counter db b).
Proof.
  intros Hwf Hc Hv.
  pose proof (WF_at_time t db Hwf) as Hwf0.
  assert (active_counter (at_time t db) n = Some c) as Hc0 by exact Hc.
  pose proof (Next_persisted co ctx _ n c Hwf0 Hc0) as Hp.
  pose proof (WF_Next co ctx _ n Hwf0) as Hwf1.
  assert (forall b, n <> b ->
                    active_counter (snd (Next co ctx (at_time t db) n)) b
                    = active_counter db b) as Hfr.
  { intros b Hb. unfold active_counter.
    apply (Next_frame co ctx (at_time t db) n b);
      [exact Hwf0 | exact Hb | apply about_matches]. }
  rewrite (Next_active co ctx _ n c Hwf0 Hc0) in Hp, Hwf1, Hfr.
  simpl snd in Hp, Hwf1, Hfr.
  exists (bumped (NowFunc (at_time t db)) c). eexists.
  split; [apply (Next_active co ctx _ n c Hwf0 Hc0)|].
  split; [|split; [exact Hwf1 | split; [exact Hp | exact Hfr]]].
  apply N.eqb_eq. change (uint32_incr (Value c) = uint32 (i + 1)).
  now apply uint32_succ.
Qed.

Lemma TestSingleName_loop (now : N -> gorm.Time) (co : CounterOperator)
    (iterations : nat) :
  forall (i : N) (db : DB) (c : Counter),
    WF db -> active_counter db "n0" = Some c -> Value c = uint32 i ->
    exists (db' : DB) (c' : Counter),
      for_loop iterations i (TestSingleName_body now co) db = inr db'
      /\ WF db'
      /\ active_counter db' "n0" = Some c'
      /\ Value c' = uint32 (i + N.of_nat iterations).
Proof.
  induction iterations as [|k IH]; intros i db c Hwf Hc Hv.
  - exists db, c. simpl. rewrite N.add_0_r. auto.
  - destruct (Next_in_loop co Background db "n0" c i (now (1 + i)) Hwf Hc Hv)
      as [c1 [db1 [HN [Hv1 [Hwf1 [Hc1 _]]]]]].
    destruct (IH (i + 1) db1 c1 Hwf1 Hc1) as [db' [c' [Hl [Hwf' [Hc' Hv']]]]].
    { now apply N.eqb_eq. }
    exists db', c'. split; [|split; [exact Hwf' | split; [exact Hc'|]]].
    + simpl for_loop. unfold TestSingleName_body at 1. rewrite HN.
      cbv beta iota. rewrite Hv1. simpl negb. cbv iota. exact Hl.
    + rewrite Hv'. f_equal. lia.
Qed.

Lemma TestMultipleNames_loop (now : N -> gorm.Time) (co : CounterOperator)
    (iterations : nat) :
  forall (i : N) (db : DB) (c0 c1 : Counter),
    WF db ->
    active_counter db "n0" = Some c0 -> Value c0 = uint32 i ->
    active_counter db "n1" = Some c1 -> Value c1 = uint32 i ->
    exists (db' : DB) (c0' c1' : Counter),
      for_loop iterations i (TestMultipleNames_body now co) db = inr db'
      /\ WF db'
      /\ active_counter db' "n0" = Some c0'
      /\ Value c0' = uint32 (i + N.of_nat iterations)
      /\ active_counter db' "n1" = Some c1'
      /\ Value c1' = uint32 (i + N.of_nat iterations).
Proof.
  assert ("n0"%string <> "n1"%string) as H01 by discriminate.
  assert ("n1"%string <> "n0"%string) as H10 by discriminate.
  induction iterations as [|k IH]; intros i db c0 c1 Hwf Hc0 Hv0 Hc1 Hv1.
  - exists db, c0, c1. simpl. rewrite N.add_0_r. auto 10.
  - destruct (Next_in_loop co Background db "n0" c0 i (now (2 + 2 * i))
                Hwf Hc0 Hv0)
      as [x [dbx [HNx [Hvx [Hwfx [Hcx Hfx]]]]]].
    assert (active_counter dbx "n1" = Some c1) as Hc1x
        by (rewrite (Hfx "n1"%string H01); exact Hc1).
    destruct (Next_in_loop co Background dbx "n1" c1 i (now (3 + 2 * i))
                Hwfx Hc1x Hv1)
      as [y [dby [HNy [Hvy [Hwfy [Hcy Hfy]]]]]].
    assert (active_counter dby "n0" = Some x) as Hcxy
        by (rewrite (Hfy "n0"%string H10); exact Hcx).
    destruct (IH (i + 1) dby x y Hwfy Hcxy) as
        [db' [c0' [c1' [Hl [Hwf' [Hc0' [Hv0' [Hc1' Hv1']]]]]]]];
      [now apply N.eqb_eq | exact Hcy | now apply N.eqb_eq |].
    exists db', c0', c1'.
    split; [|split; [exact Hwf' | split; [exact Hc0' | split;
                                          [|split; [exact Hc1'|]]]]].
    + simpl for_loop. unfold TestMultipleNames_body at 1. rewrite HNx.
      cbv beta iota. rewrite Hvx. simpl negb. cbv iota. rewrite HNy.
      cbv beta iota. rewrite Hvy. simpl negb. cbv iota. exact Hl.
    + rewrite Hv0'. f_equal. lia.
    + rewrite Hv1'. f_equal. lia.
Qed.

Lemma CreateCounter_in_test (co : CounterOperator) (ctx : Context) (db : DB)
    (n : string) (t : gorm.Time) :
  WF db -> lookup db n = None ->
  exists (c : Counter) (db' : DB),
    CreateCounter co ctx (at_time t db) n = ((c, None), db')
    /\ WF db'
    /\ active_counter db' n = Some c
    /\ Value c = uint32 0
    /\ (forall b, n <> b -> lookup db' b = lookup db b)
    /\ (forall b, n <> b -> active_counter db' b = active_counter db b).
Proof.
  intros Hwf Hl.
  assert (lookup (at_time t db) n = None) as Hl0 by exact Hl.
  pose proof (WF_CreateCounter co ctx _ n (WF_at_time t db Hwf)) as Hwf1.
  destruct (CreateCounter_persisted co ctx _ n Hl0) as [_ Ha].
  assert (forall b, n <> b ->
                    lookup (snd (CreateCounter co ctx (at_time t db) n)) b
                    = lookup db b) as Hfl.
  { intros b Hb. unfold lookup.
    apply (CreateCounter_frame co ctx (at_time t db) n b);
      [exact Hb | apply about_lookup]. }
  assert (forall b, n <> b ->
                    active_counter
                      (snd (CreateCounter co ctx (at_time t db) n)) b
                    = active_counter db b) as Hfa.
  { intros b Hb. unfold active_counter.
    apply (CreateCounter_frame co ctx (at_time t db) n b);
      [exact Hb | apply about_matches]. }
  rewrite (CreateCounter_fresh co ctx _ n Hl0) in Hwf1, Ha, Hfl, Hfa.
  simpl snd in Hwf1, Ha, Hfl, Hfa.
  exists (fresh_row (at_time t db) n). eexists.
  split; [apply (CreateCounter_fresh co ctx _ n Hl0)|].
  split; [exact Hwf1|]. split; [exact Ha|]. split; [reflexivity|].
  split; [exact Hfl | exact Hfa].
Qed.

(** X9: [TestInit] passes on every table that holds no row named [n0],
    and on any other table, one with a soft-deleted [n0] included, it is
    stopped by the duplicate-key error of [CreateCounter]. *)
Theorem TestInit_verdict (now : N -> gorm.Time) (db : DB) :
  (lookup db "n0" = None -> TestInit now db = PASS)
  /\ (lookup db "n0" <> None ->
      TestInit now db = FatalErr (StoreErr gorm.ErrDuplicatedKey)).
Proof.
  unfold TestInit. split; intro H.
  - now rewrite (CreateCounter_fresh _ _ (at_time (now 0) db) "n0" H).
  - now rewrite (CreateCounter_taken _ _ (at_time (now 0) db) "n0" H).
Qed.

Lemma TestInit_verdict_witness :
  lookup empty_DB "n0" = None
  /\ TestInit (fun k => k) empty_DB = PASS
  /\ lookup db_deleted "n0" <> None
  /\ TestInit (fun k => k) db_deleted
     = FatalErr (StoreErr gorm.ErrDuplicatedKey).
Proof.
  split; [reflexivity|]. split.
  - apply (proj1 (TestInit_verdict (fun k => k) empty_DB)). reflexivity.
  - split; [discriminate|].
    apply (proj2 (TestInit_verdict (fun k => k) db_deleted)). discriminate.
Defined.

(** X10: on a table that satisfies its schema, [TestNextWithoutCreate]
    passes exactly when no active counter is named [n0]; when one is, the
    [Next] succeeds and the test stops with "expected error". *)
Theorem TestNextWithoutCreate_verdict (now : N -> gorm.Time) (db : DB) :
  well_formed db = true ->
  (active_counter db "n0" = None -> TestNextWithoutCreate now db = PASS)
  /\ (active_counter db "n0" <> None ->
      TestNextWithoutCreate now db = FatalMsg "expected error").
Proof.
  intro Hwf. apply well_formed_WF in Hwf. unfold TestNextWithoutCreate.
  split; intro H.
  - now rewrite (Next_missing _ _ (at_time (now 0) db) "n0" H).
  - destruct (active_counter db "n0") as [c|] eqn:E; [|congruence].
    now rewrite (Next_active _ _ (at_time (now 0) db) "n0" c
                   (WF_at_time _ _ Hwf) E).
Qed.

Lemma TestNextWithoutCreate_verdict_witness :
  well_formed db_deleted = true
  /\ active_counter db_deleted "n0" = None
  /\ TestNextWithoutCreate (fun k => k) db_deleted = PASS.
Proof.
  split; [reflexivity|]. split; [reflexivity|].
  apply (proj1 (TestNextWithoutCreate_verdict (fun k => k) db_deleted eq_refl)).
  reflexivity.
Defined.

(** X11: after [n0] is created on a table that satisfies its schema, the
    loop of [TestSingleName] never stops the test, however many times it
    runs: the [i]-th [Next] returns no error and the value [uint32(i+1)],
    also past [2^32] iterations, where both sides of the comparison have
    wrapped. *)
Theorem TestSingleName_loop_never_fails (now : N -> gorm.Time)
    (co : CounterOperator) (db : DB) (iterations : nat) :
  well_formed db = true ->
  snd (fst (CreateCounter co Background db "n0")) = None ->
  exists db' : DB,
    for_loop iterations 0 (TestSingleName_body now co)
      (snd (CreateCounter co Background db "n0"))
    = inr db'
    /\ option_map Value (active_counter db' "n0")
       = Some (uint32 (N.of_nat iterations)).
Proof.
  intros Hwf Hok. apply well_formed_WF in Hwf.
  pose proof (CreateCounter_ok_inv co Background db "n0" Hok) as Hl.
  destruct (CreateCounter_persisted co Background db "n0" Hl) as [_ Ha].
  pose proof (WF_CreateCounter co Background db "n0" Hwf) as Hwf1.
  destruct (TestSingleName_loop now co iterations 0 _ _ Hwf1 Ha eq_refl)
    as [db' [c' [Hloop [_ [Hc' Hv']]]]].
  exists db'. split; [exact Hloop|]. rewrite Hc'. simpl. now rewrite Hv'.
Qed.

Lemma TestSingleName_loop_never_fails_witness :
  well_formed empty_DB = true
  /\ snd (fst (CreateCounter mkCounterOperator Background empty_DB "n0")) = None
  /\ exists db' : DB,
       for_loop 3 0 (TestSingleName_body (fun k => k) mkCounterOperator)
         (snd (CreateCounter mkCounterOperator Background empty_DB "n0"))
       = inr db'
       /\ option_map Value (active_counter db' "n0") = Some 3.
Proof.
  split; [reflexivity|]. split; [reflexivity|].
  apply (TestSingleName_loop_never_fails (fun k => k) mkCounterOperator
           empty_DB 3 eq_refl eq_refl).
Defined.

(** X12: on a table that satisfies its schema, [TestSingleName] passes
    when no row is named [n0], and otherwise is stopped by the
    duplicate-key error of its [CreateCounter]; it is never stopped by one
    of its ten value checks. *)
Theorem TestSingleName_verdict (now : N -> gorm.Time) (db : DB) :
  well_formed db = true ->
  (lookup db "n0" = None -> TestSingleName now db = PASS)
  /\ (lookup db "n0" <> None ->
      TestSingleName now db = FatalErr (StoreErr gorm.ErrDuplicatedKey)).
Proof.
  intro Hwf. apply well_formed_WF in Hwf. unfold TestSingleName.
  split; intro H.
  - destruct (CreateCounter_in_test mkCounterOperator Background db "n0"
                (now 0) Hwf H) as [c [db1 [HC [Hwf1 [Hc [Hv _]]]]]].
    rewrite HC. cbv beta iota. unfold for_range.
    destruct (TestSingleName_loop now mkCounterOperator (N.to_nat (10 - 0))
                0 db1 c Hwf1 Hc Hv) as [db' [c' [Hloop _]]].
    now rewrite Hloop.
  - now rewrite (CreateCounter_taken _ _ (at_time (now 0) db) "n0" H).
Qed.

Lemma TestSingleName_verdict_witness :
  well_formed empty_DB = true /\ lookup empty_DB "n0" = None
  /\ TestSingleName (fun k => k) empty_DB = PASS.
Proof.
  split; [reflexivity|]. split; [reflexivity|].
  apply (proj1 (TestSingleName_verdict (fun k => k) empty_DB eq_refl)).
  reflexivity.
Defined.

(** X13: on a table that satisfies its schema, [TestMultipleNames] passes
    when neither [n0] nor [n1] names a row: interleaving the [Next] calls
    on the two counters, each counter still returns [1, 2, ..., 10].
    Otherwise the test is stopped by the duplicate-key error of one of its
    two [CreateCounter] calls. *)
Theorem TestMultipleNames_verdict (now : N -> gorm.Time) (db : DB) :
  well_formed db = true ->
  (lookup db "n0" = None -> lookup db "n1" = None ->
   TestMultipleNames now db = PASS)
  /\ (lookup db "n0" <> None \/ lookup db "n1" <> None ->
      TestMultipleNames now db = FatalErr (StoreErr gorm.ErrDuplicatedKey)).
Proof.
  intro Hwf. apply well_formed_WF in Hwf. unfold TestMultipleNames.
  assert ("n0"%string <> "n1"%string) as H01 by discriminate.
  assert ("n1"%string <> "n0"%string) as H10 by discriminate.
  assert (forall c db1,
             CreateCounter mkCounterOperator Background (at_time (now 0) db) "n0"
             = ((c, None), db1) ->
             WF db1 -> active_counter db1 "n0" = Some c -> Value c = uint32 0 ->
             lookup db1 "n1" = None ->
             match for_range 0 10
                     (TestMultipleNames_body now mkCounterOperator)
                     (snd (CreateCounter mkCounterOperator Background
                             (at_time (now 1) db1) "n1"))
             with inl v => v | inr _ => PASS end = PASS) as Hpass.
  { intros c db1 HC Hwf1 Hc Hv Hl1.
    destruct (CreateCounter_in_test mkCounterOperator Background db1 "n1"
                (now 1) Hwf1 Hl1) as [c' [db2 [HC' [Hwf2 [Hc' [Hv' [_ Hfa]]]]]]].
    rewrite HC'. simpl snd. unfold for_range.
    assert (active_counter db2 "n0" = Some c) as Hc2
        by (rewrite (Hfa "n0"%string H10); exact Hc).
    destruct (TestMultipleNames_loop now mkCounterOperator (N.to_nat (10 - 0))
                0 db2 c c' Hwf2 Hc2 Hv Hc' Hv') as [db' [? [? [Hloop _]]]].
    now rewrite Hloop. }
  split.
  - intros H0 H1.
    destruct (CreateCounter_in_test mkCounterOperator Background db "n0"
                (now 0) Hwf H0) as [c [db1 [HC [Hwf1 [Hc [Hv [Hfl _]]]]]]].
    assert (lookup db1 "n1" = None) as Hl1
        by (rewrite (Hfl "n1"%string H01); exact H1).
    specialize (Hpass c db1 HC Hwf1 Hc Hv Hl1).
    rewrite HC. cbv beta iota.
    destruct (CreateCounter_in_test mkCounterOperator Background db1 "n1"
                (now 1) Hwf1 Hl1) as [c' [db2 [HC' _]]].
    rewrite HC' in Hpass |- *. cbv beta iota. exact Hpass.
  - intros H.
    destruct (lookup db "n0") as [r|] eqn:E0.
    + rewrite (CreateCounter_taken _ _ (at_time (now 0) db) "n0")
        by (change (lookup db "n0" <> None); congruence).
      reflexivity.
    + destruct H as [H|H]; [congruence|].
      destruct (CreateCounter_in_test mkCounterOperator Background db "n0"
                  (now 0) Hwf E0) as [c [db1 [HC [Hwf1 [Hc [Hv [Hfl _]]]]]]].
      rewrite HC. cbv beta iota.
      rewrite (CreateCounter_taken _ _ (at_time (now 1) db1) "n1")
        by (change (lookup db1 "n1" <> None);
            rewrite (Hfl "n1"%string H01); exact H).
      reflexivity.
Qed.

Lemma TestMultipleNames_verdict_witness :
  well_formed empty_DB = true
  /\ lookup empty_DB "n0" = None /\ lookup empty_DB "n1" = None
  /\ TestMultipleNames (fun k => k) empty_DB = PASS.
Proof.
  split; [reflexivity|]. split; [reflexivity|]. split; [reflexivity|].
  apply (proj1 (TestMultipleNames_verdict (fun k => k) empty_DB eq_refl));
    reflexivity.
Defined.

(** X14: [TestDelete] passes on every table that holds no row named [n0]:
    the counter it creates is deleted without error and the [Next] that
    follows fails.  On any other table it is stopped by the duplicate-key
    error of its [CreateCounter]. *)
Theorem TestDelete_verdict (now : N -> gorm.Time) (db : DB) :
  (lookup db "n0" = None -> TestDelete now db = PASS)
  /\ (lookup db "n0" <> None ->
      TestDelete now db = FatalErr (StoreErr gorm.ErrDuplicatedKey)).
Proof.
  unfold TestDelete. split; intro H.
  - rewrite (CreateCounter_fresh _ _ (at_time (now 0) db) "n0" H).
    cbv beta iota. rewrite DeleteCounter_eq. cbv beta iota.
    match goal with
    | |- context [Next ?co ?ctx (at_time ?t ?d) ?n] =>
        rewrite (Next_missing co ctx (at_time t d) n)
    end; [reflexivity|].
    match goal with
    | |- active_counter (at_time _ {| rows := map _ (rows ?d); NowFunc := _ |}) _
         = None =>
        exact (DeleteCounter_deactivates mkCounterOperator Background d "n0")
    end.
  - now rewrite (CreateCounter_taken _ _ (at_time (now 0) db) "n0" H).
Qed.

Lemma TestDelete_verdict_witness :
  lookup empty_DB "n0" = None /\ TestDelete (fun k => k) empty_DB = PASS.
Proof.
  split; [reflexivity|].
  apply (proj1 (TestDelete_verdict (fun k => k) empty_DB)). reflexivity.
Defined.

(** ** Tests that start goroutines *)

Lemma set_add_new (x : N) (l : set N) :
  ~ In x l -> set_add N.eq_dec x l = l ++ [x].
Proof.
  induction l as [|a l IH]; simpl; intro H; [reflexivity|].
  destruct (N.eq_dec x a) as [->|Hne]; [exfalso; auto|].
  rewrite IH; [reflexivity | auto].
Qed.

Lemma set_add_next (j : nat) :
  set_add N.eq_dec (N.of_nat (S j)) (map N.of_nat (seq 1 j))
  = map N.of_nat (seq 1 (S j)).
Proof.
  rewrite set_add_new.
  - now rewrite seq_S, map_app.
  - intro H. apply in_map_iff in H. destruct H as [x [Hx Hin]].
    apply Nat2N.inj in Hx. subst x. apply in_seq in Hin. lia.
Qed.

(** One [Next] inside a transaction, on the counter whose value is [j]. *)
Lemma Next_counts (co : CounterOperator) (ctx : Context) (db : DB)
    (c : Counter) (j : nat) (t : gorm.Time) :
  WF db -> active_counter db "n0" = Some c -> Value c = N.of_nat j ->
  N.of_nat (S j) < uint32_modulus ->
  exists (c' : Counter) (db' : DB),
    Next co ctx (at_time t db) "n0" = ((c', None), db')
    /\ Value c' = N.of_nat (S j)
    /\ WF db'
    /\ active_counter db' "n0" = Some c'.
Proof.
  intros Hwf Hc Hv Hlt.
  assert (Value c = uint32 (N.of_nat j)) as Hv'.
  { rewrite Hv. unfold uint32. symmetry. apply N.mod_small. lia. }
  destruct (Next_in_loop co ctx db "n0" c (N.of_nat j) t Hwf Hc Hv')
    as [c' [db' [HN [Hv1 [Hwf1 [Hc1 _]]]]]].
  exists c', db'. split; [exact HN|]. split; [|split; assumption].
  apply N.eqb_eq in Hv1. rewrite Hv1. unfold uint32.
  rewrite N.mod_small; lia.
Qed.

Lemma counted_at_time (j : nat) (db : DB) (recorded : list N)
    (ec : list go_error) (t : gorm.Time) :
  counted j db recorded ec -> counted j (at_time t db) recorded ec.
Proof.
  intros [Hwf [Hc [Hr He]]]. split; [now apply WF_at_time|]. now repeat split.
Qed.

Lemma committing_cons (tid : N) (order : list N) :
  committing (tid :: order)
  = ((if (tid mod 2 =? 0)%N then 0 else 1) + committing order)%nat.
Proof. unfold committing. simpl. now destruct (tid mod 2 =? 0). Qed.

Lemma TestRollback_goroutines (now : N -> gorm.Time) (co : CounterOperator)
    (order : list N) :
  forall (k : N) (j : nat) (db : DB),
    counted j db (map N.of_nat (seq 1 j)) [] ->
    N.of_nat (j + committing order) < uint32_modulus ->
    exists db' : DB,
      run_goroutines (TestRollback_goroutine now co) k order db
        (map N.of_nat (seq 1 j), [])
      = (db', (map N.of_nat (seq 1 (j + committing order)), []))
      /\ counted (j + committing order) db'
           (map N.of_nat (seq 1 (j + committing order))) [].
Proof.
  induction order as [|tid order IH]; intros k j db Hinv Hlt.
  - exists db. unfold committing. simpl. rewrite Nat.add_0_r. now split.
  - rewrite committing_cons in Hlt |- *.
    destruct Hinv as [Hwf [[c [Hc Hv]] _]].
    simpl run_goroutines. unfold TestRollback_goroutine at 1.
    unfold Transaction, TestRollback_txn.
    destruct (tid mod 2 =? 0) eqn:Etid.
    + (* the transaction aborts *)
      rewrite (Next_active co Background (at_time (now k) db) "n0" c
                 (WF_at_time _ _ Hwf) Hc).
      cbv beta iota.
      destruct (IH (k + 1) j (at_time (now k) db)) as [db' [Hrun Hinv']].
      { apply counted_at_time. split; [exact Hwf|].
        split; [exists c; now split | now split]. }
      { exact Hlt. }
      exists db'. split; assumption.
    + (* the transaction commits *)
      destruct (Next_counts co Background db c j (now k) Hwf Hc Hv)
        as [c' [db1 [HN [Hv1 [Hwf1 Hc1]]]]]; [lia|].
      rewrite HN. cbv beta iota. rewrite Hv1, set_add_next.
      destruct (IH (k + 1) (S j) db1) as [db' [Hrun Hinv']].
      { split; [exact Hwf1|]. split; [exists c'; now split | now split]. }
      { replace (S j + committing order)%nat
          with (j + (1 + committing order))%nat by lia. exact Hlt. }
      replace (j + (1 + committing order))%nat
        with (S j + committing order)%nat by lia.
      exists db'. split; assumption.
Qed.

Lemma recording_goroutines (now : N -> gorm.Time) (co : CounterOperator)
    (txn : CounterOperator -> DB -> list N * list go_error ->
           option go_error * DB * (list N * list go_error))
    (order : list N) :
  (forall (tx : DB) (c : Counter) (tx' : DB) (recorded : list N) (j : nat),
      Next co Background tx "n0" = ((c, None), tx') ->
      Value c = N.of_nat (S j) ->
      txn co tx (map N.of_nat (seq 1 j), [])
      = (None, tx', (map N.of_nat (seq 1 (S j)), []))) ->
  forall (k : N) (j : nat) (db : DB),
    counted j db (map N.of_nat (seq 1 j)) [] ->
    N.of_nat (j + List.length order) < uint32_modulus ->
    exists db' : DB,
      run_goroutines
        (fun k _ db vars =>
           let '(_, db, vars) := Transaction (at_time (now k) db) (txn co) vars in
           (db, vars))
        k order db (map N.of_nat (seq 1 j), [])
      = (db', (map N.of_nat (seq 1 (j + List.length order)), []))
      /\ counted (j + List.length order) db'
           (map N.of_nat (seq 1 (j + List.length order))) [].
Proof.
  intro Htxn. induction order as [|tid order IH]; intros k j db Hinv Hlt.
  - exists db. simpl. rewrite Nat.add_0_r. now split.
  - destruct Hinv as [Hwf [[c [Hc Hv]] _]]. simpl List.length in Hlt |- *.
    destruct (Next_counts co Background db c j (now k) Hwf Hc Hv)
      as [c' [db1 [HN [Hv1 [Hwf1 Hc1]]]]]; [lia|].
    simpl run_goroutines. unfold Transaction.
    rewrite (Htxn _ _ _ (map N.of_nat (seq 1 j)) j HN Hv1).
    destruct (IH (k + 1) (S j) db1) as [db' [Hrun Hinv']].
    { split; [exact Hwf1|]. split; [exists c'; now split | now split]. }
    { replace (S j + List.length order)%nat
        with (j + S (List.length order))%nat by lia. exact Hlt. }
    replace (j + S (List.length order))%nat
      with (S j + List.length order)%nat by lia.
    exists db'. split; assumption.
Qed.

Lemma committing_Permutation (l l' : list N) :
  Permutation l l' -> committing l = committing l'.
Proof.
  intro H. induction H as [|x l l' H IH|x y l|l l' l'' H IH H' IH'].
  - reflexivity.
  - rewrite !committing_cons. now rewrite IH.
  - rewrite !committing_cons. lia.
  - congruence.
Qed.

Lemma counted_after_create (co : CounterOperator) (ctx : Context) (db : DB)
    (t : gorm.Time) :
  WF db -> lookup db "n0" = None ->
  exists (c : Counter) (db1 : DB),
    CreateCounter co ctx (at_time t db) "n0" = ((c, None), db1)
    /\ counted 0 db1 (map N.of_nat (seq 1 0)) [].
Proof.
  intros Hwf Hl.
  destruct (CreateCounter_in_test co ctx db "n0" t Hwf Hl)
    as [c [db1 [HC [Hwf1 [Hc [Hv _]]]]]].
  exists c, db1. split; [exact HC|].
  split; [exact Hwf1|]. split; [exists c; now split | now split].
Qed.

(** X15: when the transactions of its two goroutines take effect one after
    the other, [TestContention] passes on every table that satisfies the
    schema and holds no row named [n0]: the two [Next] calls return 1 and
    2, whose sum is 3. *)
Theorem TestContention_verdict (now : N -> gorm.Time) (db : DB) :
  well_formed db = true -> lookup db "n0" = None ->
  TestContention now db = PASS.
Proof.
  intros Hwf Hl. apply well_formed_WF in Hwf. unfold TestContention.
  destruct (counted_after_create mkCounterOperator Background db (now 0) Hwf Hl)
    as [c [db1 [HC Hinv]]].
  rewrite HC. cbv beta iota zeta.
  destruct (recording_goroutines now mkCounterOperator
              (fun co => TestContention_txn co) (indices 2)) with
      (k := 1) (j := 0%nat) (db := db1) as [db' [Hrun _]].
  - intros tx c' tx' _ j HN Hv. unfold TestContention_txn. rewrite HN.
    cbv beta iota. now rewrite Hv, seq_S, map_app.
  - exact Hinv.
  - reflexivity.
  - change (map N.of_nat (seq 1 0)) with (@nil N) in Hrun.
    rewrite Hrun. reflexivity.
Qed.

Lemma TestContention_verdict_witness :
  well_formed empty_DB = true /\ lookup empty_DB "n0" = None
  /\ TestContention (fun k => k) empty_DB = PASS.
Proof.
  split; [reflexivity|]. split; [reflexivity|].
  apply (TestContention_verdict (fun k => k) empty_DB); reflexivity.
Defined.

(** X16: when the transactions of its ten goroutines take effect one after
    the other, [TestSingleNameConcurrent] passes on every table that
    satisfies the schema and holds no row named [n0]: the values the
    goroutines record are exactly [1, ..., 10]. *)
Theorem TestSingleNameConcurrent_verdict (now : N -> gorm.Time) (db : DB) :
  well_formed db = true -> lookup db "n0" = None ->
  TestSingleNameConcurrent now db = PASS.
Proof.
  intros Hwf Hl. apply well_formed_WF in Hwf. unfold TestSingleNameConcurrent.
  destruct (counted_after_create mkCounterOperator Background db (now 0) Hwf Hl)
    as [c [db1 [HC Hinv]]].
  rewrite HC. cbv beta iota zeta.
  destruct (recording_goroutines now mkCounterOperator
              (fun co => TestSingleNameConcurrent_txn co) (indices 10)) with
      (k := 1) (j := 0%nat) (db := db1) as [db' [Hrun _]].
  - intros tx c' tx' _ j HN Hv. unfold TestSingleNameConcurrent_txn.
    rewrite HN. cbv beta iota. now rewrite Hv, set_add_next.
  - exact Hinv.
  - reflexivity.
  - change (map N.of_nat (seq 1 0)) with (@nil N) in Hrun.
    unfold set, empty_set. rewrite Hrun. reflexivity.
Qed.

Lemma TestSingleNameConcurrent_verdict_witness :
  well_formed empty_DB = true /\ lookup empty_DB "n0" = None
  /\ TestSingleNameConcurrent (fun k => k) empty_DB = PASS.
Proof.
  split; [reflexivity|]. split; [reflexivity|].
  apply (TestSingleNameConcurrent_verdict (fun k => k) empty_DB); reflexivity.
Defined.

(** X17: a rolled-back [Next] consumes no value.  Let the transactions of
    [TestRollback] take effect one after the other, in any order and for
    any list of [tid]s, on a counter [n0] at 0 in a table that satisfies
    the schema.  If [k < 2^32] of them commit (those with an odd [tid]),
    no error is sent, the values the committing ones record are exactly
    [1, ..., k], and the counter ends at [k]. *)
Theorem rollback_consumes_no_value (now : N -> gorm.Time)
    (co : CounterOperator) (order : list N) (db : DB) (c : Counter) :
  well_formed db = true ->
  active_counter db "n0" = Some c -> Value c = 0 ->
  N.of_nat (committing order) < 2 ^ 32 ->
  exists db' : DB,
    run_goroutines (TestRollback_goroutine now co) 1 order db (empty_set N, [])
    = (db', (map N.of_nat (seq 1 (committing order)), []))
    /\ option_map Value (active_counter db' "n0")
       = Some (N.of_nat (committing order)).
Proof.
  intros Hwf Hc Hv Hlt. apply well_formed_WF in Hwf.
  destruct (TestRollback_goroutines now co order 1 0 db)
    as [db' [Hrun [_ [[c' [Hc' Hv']] _]]]].
  - split; [exact Hwf|]. split; [exists c; now split | now split].
  - exact Hlt.
  - exists db'. split; [exact Hrun|]. rewrite Hc'. simpl. now rewrite Hv'.
Qed.

Lemma rollback_consumes_no_value_witness :
  well_formed db_created = true
  /\ option_map Value (active_counter db_created "n0") = Some 0
  /\ committing [3; 0; 2; 1; 4] = 2%nat
  /\ exists db' : DB,
       run_goroutines (TestRollback_goroutine (fun k => k) mkCounterOperator)
         1 [3; 0; 2; 1; 4] db_created (empty_set N, [])
       = (db', ([1; 2], []))
       /\ option_map Value (active_counter db' "n0") = Some 2.
Proof.
  split; [reflexivity|]. split; [reflexivity|]. split; [reflexivity|].
  apply (rollback_consumes_no_value (fun k => k) mkCounterOperator
           [3; 0; 2; 1; 4] db_created
           (fresh_row (at_time 1 empty_DB) "n0") eq_refl eq_refl eq_refl
           eq_refl).
Defined.

(** X18: in whatever order the transactions of its ten goroutines take
    effect, one after the other, [TestRollback] passes on every table that
    satisfies the schema and holds no row named [n0]: the five goroutines
    with an odd [tid] record exactly [1, ..., 5]. *)
Theorem TestRollback_verdict (now : N -> gorm.Time) (order : list N)
    (db : DB) :
  well_formed db = true -> lookup db "n0" = None ->
  Permutation order (indices 10) ->
  TestRollback now order db = PASS.
Proof.
  intros Hwf Hl Hperm. apply well_formed_WF in Hwf. unfold TestRollback.
  destruct (counted_after_create mkCounterOperator Background db (now 0) Hwf Hl)
    as [c [db1 [HC Hinv]]].
  rewrite HC. cbv beta iota zeta.
  assert (committing order = 5%nat) as Hfive.
  { rewrite (committing_Permutation _ _ Hperm). reflexivity. }
  destruct (TestRollback_goroutines now mkCounterOperator order 1 0 db1 Hinv)
    as [db' [Hrun _]].
  - rewrite Hfive. reflexivity.
  - rewrite Hfive in Hrun.
    change (map N.of_nat (seq 1 0)) with (@nil N) in Hrun.
    unfold set, empty_set. unfold set in Hrun. rewrite Hrun. reflexivity.
Qed.

Lemma TestRollback_verdict_witness :
  well_formed empty_DB = true /\ lookup empty_DB "n0" = None
  /\ TestRollback (fun k => k) (rev (indices 10)) empty_DB = PASS.
Proof.
  split; [reflexivity|]. split; [reflexivity|].
  apply (TestRollback_verdict (fun k => k) (rev (indices 10))
           empty_DB eq_refl eq_refl).
  apply Permutation_sym, Permutation_rev.
Defined.

Lemma record_both_entries (x : N) (a b : set N) :
  record_value "n1" x
    (record_value "n0" x [("n0"%string, a); ("n1"%string, b)])
  = [("n0"%string, set_add N.eq_dec x a); ("n1"%string, set_add N.eq_dec x b)].
Proof. reflexivity. Qed.

Lemma record_both (j : nat) :
  record_value "n1" (N.of_nat (S j))
    (record_value "n0" (N.of_nat (S j)) (recorded_both j))
  = recorded_both (S j).
Proof.
  destruct j as [|j]; [reflexivity|].
  unfold recorded_both. rewrite record_both_entries.
  now rewrite (set_add_next (S j)).
Qed.

Lemma TestMultipleNamesConcurrent_goroutines (now : N -> gorm.Time)
    (co : CounterOperator) (order : list N) :
  forall (k : N) (j : nat) (db : DB) (c0 c1 : Counter),
    WF db ->
    active_counter db "n0" = Some c0 -> Value c0 = N.of_nat j ->
    active_counter db "n1" = Some c1 -> Value c1 = N.of_nat j ->
    N.of_nat (j + List.length order) < uint32_modulus ->
    exists db' : DB,
      run_goroutines
        (fun k _ db vars =>
           let '(_, db, vars) :=
             Transaction (at_time (now k) db)
               (TestMultipleNamesConcurrent_txn co) vars in
           (db, vars))
        k order db (recorded_both j, [])
      = (db', (recorded_both (j + List.length order), [])).
Proof.
  assert ("n0"%string <> "n1"%string) as H01 by discriminate.
  assert ("n1"%string <> "n0"%string) as H10 by discriminate.
  induction order as [|tid order IH]; intros k j db c0 c1 Hwf Hc0 Hv0 Hc1 Hv1 Hlt.
  - exists db. simpl. now rewrite Nat.add_0_r.
  - simpl List.length in Hlt |- *.
    assert (N.of_nat j < uint32_modulus) as Hj by lia.
    assert (forall c, Value c = N.of_nat j -> Value c = uint32 (N.of_nat j))
      as Hu.
    { intros c ->. unfold uint32. symmetry. now apply N.mod_small. }
    assert (forall c, (Value c =? uint32 (N.of_nat j + 1)) = true ->
                      Value c = N.of_nat (S j)) as Hs.
    { intros c H. apply N.eqb_eq in H. rewrite H. unfold uint32.
      rewrite N.mod_small; lia. }
    destruct (Next_in_loop co Background db "n0" c0 (N.of_nat j) (now k)
                Hwf Hc0 (Hu _ Hv0))
      as [x [dbx [HNx [Hvx [Hwfx [Hcx Hfx]]]]]].
    assert (active_counter dbx "n1" = Some c1) as Hc1x
        by (rewrite (Hfx "n1"%string H01); exact Hc1).
    pose proof (Next_cases co Background dbx "n1" Hwfx) as HNy0.
    rewrite Hc1x in HNy0.
    destruct (Next_in_loop co Background dbx "n1" c1 (N.of_nat j)
                (NowFunc dbx) Hwfx Hc1x (Hu _ Hv1))
      as [y [dby [HNy [Hvy [Hwfy [Hcy Hfy]]]]]].
    assert (at_time (NowFunc dbx) dbx = dbx) as Hsame by (now destruct dbx).
    rewrite Hsame in HNy.
    assert (active_counter dby "n0" = Some x) as Hcxy
        by (rewrite (Hfy "n0"%string H10); exact Hcx).
    destruct (IH (k + 1) (S j) dby x y Hwfy Hcxy (Hs _ Hvx) Hcy (Hs _ Hvy))
      as [db' Hrun].
    { replace (S j + List.length order)%nat
        with (j + S (List.length order))%nat by lia. exact Hlt. }
    exists db'. simpl run_goroutines. unfold Transaction.
    unfold TestMultipleNamesConcurrent_txn at 1. rewrite HNx.
    cbv beta iota. rewrite HNy. cbv beta iota zeta.
    rewrite (Hs _ Hvx), (Hs _ Hvy), record_both.
    replace (j + S (List.length order))%nat
      with (S j + List.length order)%nat by lia.
    exact Hrun.
Qed.

(** X19: when the transactions of its ten goroutines take effect one after
    the other, [TestMultipleNamesConcurrent] passes on every table that
    satisfies the schema and holds no row named [n0] or [n1]: each
    transaction advances both counters, and for each of the two names the
    values recorded are exactly [1, ..., 10]. *)
Theorem TestMultipleNamesConcurrent_verdict (now : N -> gorm.Time) (db : DB) :
  well_formed db = true ->
  lookup db "n0" = None -> lookup db "n1" = None ->
  TestMultipleNamesConcurrent now db = PASS.
Proof.
  intros Hwf H0 H1. apply well_formed_WF in Hwf.
  unfold TestMultipleNamesConcurrent.
  assert ("n0"%string <> "n1"%string) as H01 by discriminate.
  assert ("n1"%string <> "n0"%string) as H10 by discriminate.
  destruct (CreateCounter_in_test mkCounterOperator Background db "n0"
              (now 0) Hwf H0) as [c [db1 [HC [Hwf1 [Hc [Hv [Hfl _]]]]]]].
  assert (lookup db1 "n1" = None) as Hl1
      by (rewrite (Hfl "n1"%string H01); exact H1).
  destruct (CreateCounter_in_test mkCounterOperator Background db1 "n1"
              (now 1) Hwf1 Hl1) as [c' [db2 [HC' [Hwf2 [Hc' [Hv' [_ Hfa]]]]]]].
  assert (active_counter db2 "n0" = Some c) as Hc2
      by (rewrite (Hfa "n0"%string H10); exact Hc).
  rewrite HC. cbv beta iota zeta. rewrite HC'. cbv beta iota zeta.
  destruct (TestMultipleNamesConcurrent_goroutines now mkCounterOperator
              (indices 10) 2 0 db2 c c' Hwf2 Hc2 Hv Hc' Hv') as [db' Hrun].
  - reflexivity.
  - change (recorded_both 0) with (@nil (string * set N)) in Hrun.
    rewrite Hrun. reflexivity.
Qed.

Lemma TestMultipleNamesConcurrent_verdict_witness :
  well_formed empty_DB = true
  /\ lookup empty_DB "n0" = None /\ lookup empty_DB "n1" = None
  /\ TestMultipleNamesConcurrent (fun k => k) empty_DB = PASS.
Proof.
  split; [reflexivity|]. split; [reflexivity|]. split; [reflexivity|].
  apply (TestMultipleNamesConcurrent_verdict (fun k => k) empty_DB);
    reflexivity.
Defined.

(** ** A deleted name is gone for good *)

(** X20: once the active counter named [n] has been deleted, on a table
    that satisfies its schema, no sequence of calls brings it back: after
    any calls whatever, attempts to create [n] again included, [Next] on
    [n] still fails with record-not-found and [CreateCounter] on [n] still
    fails with the duplicate-key error. *)
Theorem deleted_name_stays_deleted (co : CounterOperator) (ctx : Context)
    (tx : DB) (n : string) (c : Counter) (tr : list (gorm.Time * call)) :
  well_formed tx = true ->
  active_counter tx n = Some c ->
  Next co ctx (snd (run co ctx tr (snd (DeleteCounter co ctx tx n)))) n
  = ((Counter_zero, Some gorm.ErrRecordNotFound),
     snd (run co ctx tr (snd (DeleteCounter co ctx tx n))))
  /\ CreateCounter co ctx
       (snd (run co ctx tr (snd (DeleteCounter co ctx tx n)))) n
     = ((Counter_zero, Some gorm.ErrDuplicatedKey),
        snd (run co ctx tr (snd (DeleteCounter co ctx tx n)))).
Proof.
  intros Hwf Hc. apply well_formed_WF in Hwf.
  assert (retired (snd (run co ctx tr (snd (DeleteCounter co ctx tx n)))) n)
    as [Hl Ha].
  { apply (retired_run co ctx tr n).
    - now apply WF_DeleteCounter.
    - split; [|apply DeleteCounter_deactivates].
      apply (DeleteCounter_keeps_name co ctx tx n c).
      now apply active_counter_lookup. }
  split; [now apply Next_missing | now apply CreateCounter_taken].
Qed.

Lemma deleted_name_stays_deleted_witness :
  let tr := [(5, CallCreate "n0"); (6, CallCreate "n1"); (7, CallNext "n0");
             (8, CallDelete "n0"); (9, CallCreate "n0")] in
  let tx' :=
    snd (run mkCounterOperator Background tr
           (snd (DeleteCounter mkCounterOperator Background db_created "n0"))) in
  well_formed db_created = true
  /\ active_counter db_created "n0" <> None
  /\ snd (fst (Next mkCounterOperator Background tx' "n0"))
     = Some gorm.ErrRecordNotFound
  /\ snd (fst (CreateCounter mkCounterOperator Background tx' "n0"))
     = Some gorm.ErrDuplicatedKey.
Proof.
  intros tr tx'. split; [reflexivity|]. split; [discriminate|].
  destruct (deleted_name_stays_deleted mkCounterOperator Background
              db_created "n0" (fresh_row (at_time 1 empty_DB) "n0") tr
              eq_refl eq_refl) as [HN HC].
  fold tx' in HN, HC. rewrite HN, HC. split; reflexivity.
Defined.

(** * The value over committed and rolled-back transactions *)

Lemma run_transactions_cons (co : CounterOperator) (ctx : Context)
    (t : transaction) (txs : list transaction) (db : DB) :
  run_transactions co ctx (t :: txs) db
  = (fst (run co ctx (calls t) db)
       :: fst (run_transactions co ctx txs
                 (if commits t then snd (run co ctx (calls t) db) else db)),
     snd (run_transactions co ctx txs
            (if commits t then snd (run co ctx (calls t) db) else db))).
Proof.
  simpl. destruct (run co ctx (calls t) db) as [rs tx]. simpl.
  destruct (run_transactions co ctx txs (if commits t then tx else db))
    as [rss db'']. reflexivity.
Qed.

Lemma lookup_In_names (tx : DB) (n : string) :
  lookup tx n <> None <-> In n (map Name (rows tx)).
Proof.
  split.
  - intro H. destruct (lookup tx n) as [r|] eqn:E; [|congruence].
    apply find_some in E. destruct E as [Hr Hn]. apply String.eqb_eq in Hn.
    apply in_map_iff. now exists r.
  - intros H E. apply in_map_iff in H. destruct H as [r [Hn Hr]].
    pose proof (find_none _ _ E r Hr) as Hf. simpl in Hf.
    apply String.eqb_neq in Hf. contradiction.
Qed.

Lemma names_kept_run (co : CounterOperator) (ctx : Context)
    (tr : list (gorm.Time * call)) (n : string) :
  forall tx : DB,
    WF tx -> lookup tx n <> None -> lookup (snd (run co ctx tr tx)) n <> None.
Proof.
  induction tr as [|[t c] tr IH]; intros tx Hwf Hl; [exact Hl|].
  rewrite run_cons. simpl snd.
  pose proof (WF_at_time t tx Hwf) as Hwf0.
  apply IH; [now apply WF_exec|].
  apply lookup_In_names. apply lookup_In_names in Hl.
  pose proof (exec_identities co ctx _ c Hwf0 _ eq_refl) as Hid.
  apply (f_equal (map snd)) in Hid. rewrite map_app, !map_map in Hid.
  change (map (fun r => snd (identity r))) with (map Name) in Hid.
  rewrite Hid. apply in_or_app. left. exact Hl.
Qed.

Lemma WF_run_transactions (co : CounterOperator) (ctx : Context)
    (txs : list transaction) :
  forall db : DB, WF db -> WF (snd (run_transactions co ctx txs db)).
Proof.
  induction txs as [|t txs IH]; intros db Hwf; [exact Hwf|].
  rewrite run_transactions_cons. simpl snd. apply IH.
  destruct (commits t); [now apply WF_run | exact Hwf].
Qed.

Lemma retired_run_transactions (co : CounterOperator) (ctx : Context)
    (txs : list transaction) (n : string) :
  forall db : DB,
    WF db -> retired db n ->
    retired (snd (run_transactions co ctx txs db)) n.
Proof.
  induction txs as [|t txs IH]; intros db Hwf Hr; [exact Hr|].
  rewrite run_transactions_cons. simpl snd.
  destruct (commits t).
  - apply IH; [now apply WF_run | now apply retired_run].
  - now apply IH.
Qed.

Lemma value_over_transactions (co : CounterOperator) (ctx : Context)
    (txs : list transaction) (n : string) :
  forall (db : DB) (c c' : Counter),
    WF db ->
    active_counter db n = Some c ->
    active_counter (snd (run_transactions co ctx txs db)) n = Some c' ->
    Value c'
    = (Value c
       + committed_Next_calls n txs (fst (run_transactions co ctx txs db)))
        mod uint32_modulus.
Proof.
  induction txs as [|t txs IH]; intros db c c' Hwf Hc Hc'.
  - simpl in Hc'. rewrite Hc in Hc'. inversion Hc'; subst c'.
    simpl. rewrite N.add_0_r. symmetry. apply N.mod_small.
    apply (wf_values _ Hwf). now apply active_counter_In in Hc.
  - rewrite run_transactions_cons in Hc' |- *. simpl snd in Hc'. simpl fst.
    simpl committed_Next_calls.
    destruct (commits t).
    + pose proof (WF_run co ctx (calls t) db Hwf) as Hwf1.
      destruct (active_counter (snd (run co ctx (calls t) db)) n)
        as [c1|] eqn:E1.
      * rewrite (IH _ c1 c' Hwf1 E1 Hc').
        rewrite (value_over_run co ctx (calls t) n db c c1 Hwf Hc E1).
        rewrite N.Div0.add_mod_idemp_l. f_equal. lia.
      * exfalso.
        assert (retired (snd (run co ctx (calls t) db)) n) as Hr.
        { split; [|exact E1]. apply names_kept_run; [exact Hwf|].
          rewrite (active_counter_lookup db n c Hwf Hc). discriminate. }
        destruct (retired_run_transactions co ctx txs n _ Hwf1 Hr)
          as [_ Hnone].
        congruence.
    + rewrite (IH db c c' Hwf Hc Hc'). f_equal.
Qed.

(** C8, as amended: on a table that satisfies its schema, take a counter
    that is active before and after a sequence of transactions, each a
    sequence of calls that ends committed or rolled back.  Its persisted
    value has changed from [v] to [v + k] reduced modulo [2^32], where [k]
    counts the committed [Next] calls on it (those that returned no error
    in a transaction that was committed): no other call changes it, and a
    [Next] that is rolled back does not.  So the value is unchanged when
    there was no committed [Next] on it, and not smaller as long as
    [v + k] stays below [2^32]. *)
Theorem value_changes_only_by_Next (co : CounterOperator) (ctx : Context)
    (txs : list transaction) (db : DB) (n : string) (c c' : Counter) :
  well_formed db = true ->
  active_counter db n = Some c ->
  active_counter (snd (run_transactions co ctx txs db)) n = Some c' ->
  let k :=
    committed_Next_calls n txs (fst (run_transactions co ctx txs db)) in
  Value c' = (Value c + k) mod 2 ^ 32
  /\ (k = 0 -> Value c' = Value c)
  /\ (Value c + k < 2 ^ 32 -> Value c <= Value c').
Proof.
  intros Hwf Hc Hc' k. apply well_formed_WF in Hwf.
  pose proof (value_over_transactions co ctx txs n db c c' Hwf Hc Hc') as H.
  fold k in H. change uint32_modulus with (2 ^ 32) in H.
  assert (Value c < 2 ^ 32) as Hv.
  { apply (wf_values _ Hwf). now apply active_counter_In in Hc. }
  split; [exact H|]. split.
  - intro Hk. rewrite H, Hk, N.add_0_r. now apply N.mod_small.
  - intro Hlt. rewrite H, N.mod_small by exact Hlt. lia.
Qed.

Lemma value_changes_only_by_Next_witness :
  let txs :=
    [ {| calls := [(4, CallNext "n0"); (5, CallNext "n0")];
         commits := false |};
      {| calls := [(6, CallNext "n1"); (7, CallNext "n0");
                   (8, CallDelete "n1"); (9, CallCreate "n0")];
         commits := true |};
      {| calls := [(10, CallNext "n0"); (11, CallDelete "n0")];
         commits := false |} ] in
  well_formed db_two = true
  /\ option_map Value (active_counter db_two "n0") = Some 1
  /\ option_map Value
       (active_counter
          (snd (run_transactions mkCounterOperator Background txs db_two))
          "n0")
     = Some 2
  /\ values (List.concat (fst (run_transactions mkCounterOperator Background
                            txs db_two)))
     = [2; 3; 1; 2; 0; 0; 3; 0]
  /\ committed_Next_calls "n0" txs
       (fst (run_transactions mkCounterOperator Background txs db_two))
     = 1
  /\ 1 <= 2.
Proof.
  intro txs. split; [reflexivity|]. split; [reflexivity|].
  split; [reflexivity|]. split; [reflexivity|]. split; [reflexivity|].
  pose proof (value_changes_only_by_Next mkCounterOperator Background txs
                db_two "n0"
                (current db_two "n0")
                (current (snd (run_transactions mkCounterOperator Background
                                 txs db_two)) "n0")
                eq_refl eq_refl eq_refl) as [_ [_ Hle]].
  apply Hle. reflexivity.
Defined.
